(** * Upload route of the admin application (src/app/api/upload/route.ts)

    The file holds two versions of the [POST] handler:
    - lines 1-209: the handler with a storage selector, writing either to
      Google Cloud Storage ([uploadToGCS]) or to Vercel Blob
      ([uploadToVercelBlob]); modelled as [POST_fallback];
    - lines 210-366: the Google-Cloud-Storage-only handler that sanitizes the
      file name; modelled as [POST_gcs].

    JavaScript strings are sequences of UTF-16 code units, modelled as
    [list Z].  The outside world (the clock [Date.now()] and the storage
    backends) is an oracle: [now] is the timestamp and [write i] is the
    outcome of the [i]-th write attempt.  The observable effects of a
    request are the trace of storage writes and sleeps it performs.

    The second part models the page that creates a coupon
    (src/unnamed/part_001): [uniqStrings], [formatNumber] with the
    [Number] conversion it relies on, the [IdPicker] component, and the
    page's [fetchPicklists], form handlers and [onSubmit]. *)

From Stdlib Require Import ZArith List String Ascii Bool Lia.
From Stdlib Require Floats.
Import ListNotations.
Open Scope Z_scope.

(** ** JavaScript strings *)

Definition jsstring := list Z.

(** String literals of the source, all ASCII. *)
Definition js (s : string) : jsstring :=
  map (fun a => Z.of_N (N_of_ascii a)) (list_ascii_of_string s).

Fixpoint jsstring_eqb (a b : jsstring) : bool :=
  match a, b with
  | [], [] => true
  | x :: a', y :: b' => (x =? y) && jsstring_eqb a' b'
  | _, _ => false
  end.

(** [Array.prototype.includes] on an array of strings. *)
Definition includes (xs : list jsstring) (x : jsstring) : bool :=
  existsb (fun y => jsstring_eqb y x) xs.

(** Truthiness of a string: only the empty string is falsy. *)
Definition truthy (s : jsstring) : bool :=
  match s with [] => false | _ => true end.

(** Decimal rendering of a non-negative integer, as in the template
    literal [`${timestamp}`] for [Date.now()]. *)
Fixpoint uint_digits (u : Decimal.uint) : jsstring :=
  match u with
  | Decimal.Nil => []
  | Decimal.D0 u => 48 :: uint_digits u
  | Decimal.D1 u => 49 :: uint_digits u
  | Decimal.D2 u => 50 :: uint_digits u
  | Decimal.D3 u => 51 :: uint_digits u
  | Decimal.D4 u => 52 :: uint_digits u
  | Decimal.D5 u => 53 :: uint_digits u
  | Decimal.D6 u => 54 :: uint_digits u
  | Decimal.D7 u => 55 :: uint_digits u
  | Decimal.D8 u => 56 :: uint_digits u
  | Decimal.D9 u => 57 :: uint_digits u
  end.

Definition number_to_string (n : N) : jsstring := uint_digits (N.to_uint n).

(** ** File name sanitization (route.ts lines 286-290)
<<
    const sanitizedFileName = file.name
      .replace(/\s+/g, '-')
      .replace(/[^a-zA-Z0-9.-]/g, '')
      .toLowerCase();
>> *)

(** The code units matched by [\s] (ECMAScript WhiteSpace and
    LineTerminator). *)
Definition is_js_whitespace (c : Z) : bool :=
  (c =? 9) || (c =? 10) || (c =? 11) || (c =? 12) || (c =? 13) || (c =? 32)
  || (c =? 160) || (c =? 5760) || ((8192 <=? c) && (c <=? 8202))
  || (c =? 8232) || (c =? 8233) || (c =? 8239) || (c =? 8287)
  || (c =? 12288) || (c =? 65279).

Definition hyphen : Z := 45.

(** [s.replace(/\s+/g, '-')]: each maximal run of whitespace becomes one
    hyphen; [in_run] records that the previous code unit was whitespace. *)
Fixpoint replace_ws_runs (in_run : bool) (s : jsstring) : jsstring :=
  match s with
  | [] => []
  | c :: t =>
      if is_js_whitespace c then
        if in_run then replace_ws_runs true t
        else hyphen :: replace_ws_runs true t
      else c :: replace_ws_runs false t
  end.

Definition replace_whitespace (s : jsstring) : jsstring :=
  replace_ws_runs false s.

(** The character class [[a-zA-Z0-9.-]]. *)
Definition is_kept_char (c : Z) : bool :=
  ((97 <=? c) && (c <=? 122)) || ((65 <=? c) && (c <=? 90))
  || ((48 <=? c) && (c <=? 57)) || (c =? 46) || (c =? 45).

(** [s.replace(/[^a-zA-Z0-9.-]/g, '')]. *)
Definition strip_special (s : jsstring) : jsstring :=
  filter is_kept_char s.

(** [s.toLowerCase()] on the strings it is applied to here: after
    [strip_special] every code unit is ASCII, where [toLowerCase] maps
    A-Z to a-z and leaves every other code unit unchanged. *)
Definition to_lower_unit (c : Z) : Z :=
  if (65 <=? c) && (c <=? 90) then c + 32 else c.

Definition toLowerCase (s : jsstring) : jsstring := map to_lower_unit s.

Definition sanitize (name : jsstring) : jsstring :=
  toLowerCase (strip_special (replace_whitespace name)).

(** ** Requests and responses *)

(** A [File] of the Web API: its name, declared MIME type and byte size. *)
Record File := mkFile {
  name : jsstring;
  type : jsstring;
  size : Z
}.

(** A [FormDataEntryValue]: a multipart field is a string or a file. *)
Inductive entry :=
  | EntryStr (s : jsstring)
  | EntryFile (f : File).

(** The multipart body; [formData.get(k)] is [None] (null) when the field
    is absent. *)
Record Request := mkRequest {
  form_file : option entry;
  form_directory : option entry
}.

(** The process configuration: [process.env.GCS_BUCKET_NAME], whether the
    module-level [new Storage()] succeeded ([storage !== null]), and
    [process.env.BLOB_READ_WRITE_TOKEN]. *)
Record Config := mkConfig {
  GCS_BUCKET_NAME : option jsstring;
  storage_ok : bool;
  BLOB_READ_WRITE_TOKEN : option jsstring
}.

(** A thrown value: an [Error] instance with its message, or any other
    value. *)
Inductive thrown :=
  | ErrorObj (message : jsstring)
  | NonErrorValue.

(** [error instanceof Error ? error.message : 'Unknown error']. *)
Definition error_details (e : thrown) : jsstring :=
  match e with
  | ErrorObj m => m
  | NonErrorValue => js "Unknown error"
  end.

(** [NextResponse.json(...)]: a success body [{url, fileName, storage?}]
    with status 200, or an error body [{error, details?}] with a status. *)
Inductive Response :=
  | JsonOk (url fileName : jsstring) (storage : option jsstring)
  | JsonErr (status : Z) (error : jsstring) (details : option jsstring).

Definition status (r : Response) : Z :=
  match r with JsonOk _ _ _ => 200 | JsonErr st _ _ => st end.

Inductive Backend := GCS | VercelBlob.

(** Observable effects: one storage write attempt of an object key, or a
    pause of some milliseconds. *)
Inductive event :=
  | EvWrite (backend : Backend) (key : jsstring)
  | EvSleep (ms : Z).

(** Outcome of one write attempt: [put] resolves to a blob whose URL is
    given ([blob.save] resolves to nothing and the URL is ignored), or the
    attempt throws. *)
Inductive outcome :=
  | Saved (blob_url : jsstring)
  | Failed (e : thrown).

(** ** Validation (lines 31-71, identical to lines 235-275) *)

Inductive Rejection := MissingFile | InvalidType | TooLarge | InvalidDirectory.

Definition rejection_response (r : Rejection) : Response :=
  match r with
  | MissingFile => JsonErr 400 (js "No file provided") None
  | InvalidType => JsonErr 400
      (js "Invalid file type. Only JPEG, PNG, WebP, and AVIF images are allowed.") None
  | TooLarge => JsonErr 400 (js "File too large. Maximum size is 15MB.") None
  | InvalidDirectory => JsonErr 400
      (js "Invalid directory. Allowed directories: courses, batches, general, products, products/banner, category-icons, logos") None
  end.

Definition allowedTypes : list jsstring :=
  map js ["image/jpeg"; "image/jpg"; "image/png"; "image/webp"; "image/avif"]%string.

Definition maxSize : Z := 15 * 1024 * 1024.

Definition allowedDirectories : list jsstring :=
  map js ["courses"; "batches"; "general"; "products"; "products/banner";
          "category-icons"; "logos"]%string.

(** [formData.get('directory') as string || 'general']: null and the empty
    string are falsy; a file entry is truthy and is kept as it is. *)
Definition directory_value (d : option entry) : entry :=
  match d with
  | None => EntryStr (js "general")
  | Some (EntryStr s) => if truthy s then EntryStr s else EntryStr (js "general")
  | Some (EntryFile f) => EntryFile f
  end.

(** [!file]: null and the empty string are falsy. *)
Definition file_missing (f : option entry) : bool :=
  match f with
  | None => true
  | Some (EntryStr s) => negb (truthy s)
  | Some (EntryFile _) => false
  end.

(** [allowedTypes.includes(file.type)]: a string entry has no [type]
    property, and [undefined] is not in the array. *)
Definition type_allowed (f : entry) : bool :=
  match f with
  | EntryFile f => includes allowedTypes (type f)
  | EntryStr _ => false
  end.

(** [allowedDirectories.includes(directory)]. *)
Definition directory_allowed (d : entry) : bool :=
  match d with
  | EntryStr s => includes allowedDirectories s
  | EntryFile _ => false
  end.

(** The four checks in source order; on success, the file and the
    directory string that the rest of the handler uses.  The two inner
    [inl] branches on a string file and a file-valued directory are never
    taken: the type and directory checks have already rejected them. *)
Definition validate (req : Request) : Rejection + (File * jsstring) :=
  let directory := directory_value (form_directory req) in
  match form_file req with
  | None => inl MissingFile
  | Some file =>
      if file_missing (Some file) then inl MissingFile else
      if negb (type_allowed file) then inl InvalidType else
      match file with
      | EntryStr _ => inl InvalidType
      | EntryFile f =>
          if size f >? maxSize then inl TooLarge else
          if negb (directory_allowed directory) then inl InvalidDirectory else
          match directory with
          | EntryStr d => inr (f, d)
          | EntryFile _ => inl InvalidDirectory
          end
      end
  end.

(** ** The retry loop (lines 117-153, 177-197 and 304-340)
<<
    let retries = 3;
    while (retries > 0) {
      try { <write>; break; }
      catch (uploadError) {
        retries--;
        if (retries === 0) { throw uploadError; }
        await new Promise(resolve => setTimeout(resolve, 1000));
      }
    }
>>
    [i] numbers the attempts, so that [write i] is the outcome of the
    [i]-th write. *)

Inductive loop_result :=
  | LoopBroke (blob_url : jsstring)
  | LoopThrew (e : thrown)
  | LoopExited.

Fixpoint retry_loop (b : Backend) (key : jsstring) (write : nat -> outcome)
    (retries : nat) (i : nat) : list event * loop_result :=
  match retries with
  | O => ([], LoopExited)
  | S r =>
      match write i with
      | Saved u => ([EvWrite b key], LoopBroke u)
      | Failed e =>
          match r with
          | O => ([EvWrite b key], LoopThrew e)
          | S _ =>
              let '(tr, res) := retry_loop b key write r (S i) in
              (EvWrite b key :: EvSleep 1000 :: tr, res)
          end
      end
  end.

Definition initial_retries : nat := 3.

(** Truthiness of an environment variable ([undefined] is falsy). *)
Definition env_truthy (v : option jsstring) : bool :=
  match v with Some s => truthy s | None => false end.

Definition slash : jsstring := js "/".
Definition dash : jsstring := js "-".

(** [`${directory}/${timestamp}-${name}`] (lines 75 and 294). *)
Definition object_key (directory : jsstring) (now : N) (fname : jsstring) : jsstring :=
  directory ++ slash ++ number_to_string now ++ dash ++ fname.

Definition gcs_public_url (bucketName fileName : jsstring) : jsstring :=
  js "https://storage.googleapis.com/" ++ bucketName ++ slash ++ fileName.

(** ** Handler with a storage selector (lines 1-209) *)

(** [uploadToGCS] (lines 115-164): the result is the response, or the
    value it throws. *)
Definition uploadToGCS (bucketName fileName : jsstring) (write : nat -> outcome)
    : list event * (thrown + Response) :=
  let '(tr, res) := retry_loop GCS fileName write initial_retries 0 in
  match res with
  | LoopThrew e => (tr, inl e)
  | LoopExited => (tr, inl (ErrorObj (js "Upload failed - no URL returned")))
  | LoopBroke _ =>
      let publicUrl := gcs_public_url bucketName fileName in
      if negb (truthy publicUrl)
      then (tr, inl (ErrorObj (js "Upload failed - no URL returned")))
      else (tr, inr (JsonOk publicUrl fileName (Some (js "gcs"))))
  end.

(** [uploadToVercelBlob] (lines 167-209); after a successful [put] the
    check [if (!blob)] never fires, a blob being an object. *)
Definition uploadToVercelBlob (cfg : Config) (fileName : jsstring)
    (write : nat -> outcome) : list event * (thrown + Response) :=
  if negb (env_truthy (BLOB_READ_WRITE_TOKEN cfg)) then
    ([], inr (JsonErr 500
      (js "Server configuration error: Neither GCS nor Vercel Blob is configured properly") None))
  else
    let '(tr, res) := retry_loop VercelBlob fileName write initial_retries 0 in
    match res with
    | LoopThrew e => (tr, inl e)
    | LoopExited => (tr, inl (ErrorObj (js "Upload failed - no blob returned")))
    | LoopBroke u => (tr, inr (JsonOk u fileName (Some (js "vercel-blob"))))
    end.

(** The [catch] of [POST] (lines 96-111). *)
Definition catch_upload_error (r : thrown + Response) : Response :=
  match r with
  | inl e => JsonErr 500 (js "Failed to upload file") (Some (error_details e))
  | inr resp => resp
  end.

(** [const useGCS = bucketName && storage;] (lines 83-86). *)
Definition use_gcs (cfg : Config) : bool :=
  env_truthy (GCS_BUCKET_NAME cfg) && storage_ok cfg.

(** [POST] of lines 24-112; [compressImageIfNeeded] returns its argument. *)
Definition POST_fallback (cfg : Config) (req : Request) (now : N)
    (write : nat -> outcome) : list event * Response :=
  match validate req with
  | inl r => ([], rejection_response r)
  | inr (file, directory) =>
      let fileName := object_key directory now (name file) in
      let '(tr, res) :=
        match GCS_BUCKET_NAME cfg with
        | Some bucketName =>
            if truthy bucketName && storage_ok cfg
            then uploadToGCS bucketName fileName write
            else uploadToVercelBlob cfg fileName write
        | None => uploadToVercelBlob cfg fileName write
        end in
      (tr, catch_upload_error res)
  end.

(** ** Google-Cloud-Storage-only handler (lines 210-366) *)

Definition POST_gcs (cfg : Config) (req : Request) (now : N)
    (write : nat -> outcome) : list event * Response :=
  match validate req with
  | inl r => ([], rejection_response r)
  | inr (file, directory) =>
      match GCS_BUCKET_NAME cfg with
      | Some bucketName =>
          if negb (truthy bucketName) then
            ([], JsonErr 500 (js "Server configuration error: GCS_BUCKET_NAME not set") None)
          else
            let sanitizedFileName := sanitize (name file) in
            let fileName := object_key directory now sanitizedFileName in
            let '(tr, res) := retry_loop GCS fileName write initial_retries 0 in
            match res with
            | LoopThrew e => (tr, catch_upload_error (inl e))
            | LoopExited =>
                (tr, catch_upload_error (inl (ErrorObj (js "Upload failed - no URL returned"))))
            | LoopBroke _ =>
                let publicUrl := gcs_public_url bucketName fileName in
                if negb (truthy publicUrl)
                then (tr, catch_upload_error
                            (inl (ErrorObj (js "Upload failed - no URL returned"))))
                else (tr, JsonOk publicUrl fileName None)
            end
      | None =>
          ([], JsonErr 500 (js "Server configuration error: GCS_BUCKET_NAME not set") None)
      end
  end.

(** The effect [ev] is a pause, or a write of [key] to [bk]. *)
Definition writes_to (bk : Backend) (key : jsstring) (ev : event) : Prop :=
  match ev with
  | EvWrite b k => b = bk /\ k = key
  | EvSleep _ => True
  end.

(** The validation order as section 4.1 of the spec lists it: missing file,
    MIME type, byte size, directory; the first violated check decides. *)
Definition spec_checks (req : Request) : list (Rejection * bool) :=
  [(MissingFile, file_missing (form_file req));
   (InvalidType, match form_file req with
                 | Some e => negb (type_allowed e)
                 | None => true
                 end);
   (TooLarge, match form_file req with
              | Some (EntryFile f) => size f >? maxSize
              | _ => false
              end);
   (InvalidDirectory, negb (directory_allowed (directory_value (form_directory req))))].

Definition first_violation_spec (req : Request) : option Rejection :=
  option_map fst (find snd (spec_checks req)).

(** * Add-coupon page (src/unnamed/part_001)

    The client page that creates a coupon: the helpers [uniqStrings] and
    [formatNumber], the [IdPicker] component (search, toggling, rendering
    cap), the loading of the product and category picklists and the
    submission of the form. *)

(** ** [uniqStrings] (lines 15-17)
<<
    return Array.from(new Set(values.filter(Boolean)));
>>
    A [Set] of strings iterates in insertion order of first occurrences;
    [Array.from] lists it in that order. *)

Definition set_add (st : list jsstring) (x : jsstring) : list jsstring :=
  if includes st x then st else st ++ [x].

Definition new_Set (xs : list jsstring) : list jsstring := fold_left set_add xs [].

Definition uniqStrings (values : list jsstring) : list jsstring :=
  new_Set (filter truthy values).

(** ** [String.prototype.trim] and [String.prototype.includes] *)

(** [trim] removes leading and trailing WhiteSpace and LineTerminator code
    units, the same set as [\s]. *)
Fixpoint trim_start (s : jsstring) : jsstring :=
  match s with
  | [] => []
  | c :: t => if is_js_whitespace c then trim_start t else s
  end.

Definition trim (s : jsstring) : jsstring := rev (trim_start (rev (trim_start s))).

Fixpoint is_prefix (p s : jsstring) : bool :=
  match p, s with
  | [], _ => true
  | x :: p', y :: s' => (x =? y) && is_prefix p' s'
  | _ :: _, [] => false
  end.

(** [s.includes(p)]: [p] occurs in [s] at some index. *)
Fixpoint str_includes (s p : jsstring) : bool :=
  is_prefix p s || match s with [] => false | _ :: t => str_includes t p end.

(** ** [formatNumber] (lines 19-24)
<<
    if (value === '') return '';
    const n = Number(value);
    if (!Number.isFinite(n)) return '';
    return value;
>>
    [Number(value)] is StringToNumber: after trimming white space, the
    empty string is 0, and otherwise the whole text must be a
    StrNumericLiteral (a signed decimal literal with optional fraction and
    exponent, [Infinity], or an unsigned 0b/0o/0x integer), else NaN.  The
    literal's mathematical value is kept exactly. *)

Inductive numeral :=
  | NumNaN
  | NumInfinity (negative : bool)
  | NumExact (m : Z) (e : Z).

Definition digit_value (base c : Z) : option Z :=
  let d := if (48 <=? c) && (c <=? 57) then c - 48
           else if (97 <=? c) && (c <=? 122) then c - 87
           else if (65 <=? c) && (c <=? 90) then c - 55
           else base in
  if d <? base then Some d else None.

Fixpoint span_digits (base : Z) (s : jsstring) : list Z * jsstring :=
  match s with
  | [] => ([], [])
  | c :: t =>
      match digit_value base c with
      | Some d => let '(ds, r) := span_digits base t in (d :: ds, r)
      | None => ([], s)
      end
  end.

Definition digits_value (base : Z) (ds : list Z) : Z :=
  fold_left (fun acc d => acc * base + d) ds 0.

(** An optional ExponentPart [(e|E) [+-]? DecimalDigits] ending the text. *)
Definition parse_exponent (s : jsstring) : option Z :=
  match s with
  | [] => Some 0
  | c :: t =>
      if (c =? 101) || (c =? 69) then
        let '(sign, r) :=
          match t with
          | c' :: r => if c' =? 43 then (1, r) else if c' =? 45 then (-1, r) else (1, t)
          | [] => (1, t)
          end in
        match span_digits 10 r with
        | (d :: ds, []) => Some (sign * digits_value 10 (d :: ds))
        | _ => None
        end
      else None
  end.

(** StrUnsignedDecimalLiteral: [Infinity], or digits with an optional
    fraction (at least one digit overall) and an optional exponent. *)
Definition parse_unsigned_decimal (s : jsstring) : numeral :=
  if jsstring_eqb s (js "Infinity") then NumInfinity false else
  let '(int_ds, r1) := span_digits 10 s in
  let '(frac_ds, r2) :=
    match r1 with
    | c :: r => if c =? 46 then span_digits 10 r else ([], r1)
    | [] => ([], [])
    end in
  match int_ds, frac_ds with
  | [], [] => NumNaN
  | _, _ =>
      match parse_exponent r2 with
      | Some ex => NumExact (digits_value 10 (int_ds ++ frac_ds))
                            (ex - Z.of_nat (List.length frac_ds))
      | None => NumNaN
      end
  end.

Definition negate_numeral (n : numeral) : numeral :=
  match n with
  | NumNaN => NumNaN
  | NumInfinity b => NumInfinity (negb b)
  | NumExact m e => NumExact (- m) e
  end.

(** StrDecimalLiteral: an optional sign, then the unsigned literal. *)
Definition parse_str_decimal (s : jsstring) : numeral :=
  match s with
  | c :: t =>
      if c =? 43 then parse_unsigned_decimal t
      else if c =? 45 then negate_numeral (parse_unsigned_decimal t)
      else parse_unsigned_decimal s
  | [] => NumNaN
  end.

Definition non_decimal_base (c : Z) : option Z :=
  if (c =? 98) || (c =? 66) then Some 2
  else if (c =? 111) || (c =? 79) then Some 8
  else if (c =? 120) || (c =? 88) then Some 16
  else None.

(** StrNumericLiteral: a NonDecimalIntegerLiteral or a StrDecimalLiteral. *)
Definition parse_str_numeric (s : jsstring) : numeral :=
  match s with
  | c0 :: c1 :: t =>
      if c0 =? 48 then
        match non_decimal_base c1 with
        | Some base =>
            match span_digits base t with
            | (d :: ds, []) => NumExact (digits_value base (d :: ds)) 0
            | _ => NumNaN
            end
        | None => parse_str_decimal s
        end
      else parse_str_decimal s
  | _ => parse_str_decimal s
  end.

Definition StringToNumber (str : jsstring) : numeral :=
  let t := trim str in
  if negb (truthy t) then NumExact 0 0 else parse_str_numeric t.

(** The least magnitude that rounds to an infinite binary64 number. *)
Definition overflow_bound : Z := 2 ^ 1024 - 2 ^ 970.

(** [Number.isFinite] of the number nearest to the literal's value (the
    correctly rounded conversion): finite exactly when the magnitude is
    below [overflow_bound]. *)
Definition numeral_isFinite (n : numeral) : bool :=
  match n with
  | NumNaN | NumInfinity _ => false
  | NumExact m e =>
      if 0 <=? e then Z.abs m * 10 ^ e <? overflow_bound
      else Z.abs m <? overflow_bound * 10 ^ (- e)
  end.

Definition formatNumber (value : jsstring) : jsstring :=
  if jsstring_eqb value [] then [] else
  if negb (numeral_isFinite (StringToNumber value)) then [] else value.

(** The code units a finite numeric literal can contain: digits, a-f,
    A-F, the radix letters x, X, o, O, the point and the signs. *)
Definition numeric_literal_char (c : Z) : bool :=
  ((48 <=? c) && (c <=? 57)) || ((97 <=? c) && (c <=? 102)) || ((65 <=? c) && (c <=? 70))
  || (c =? 120) || (c =? 88) || (c =? 111) || (c =? 79)
  || (c =? 46) || (c =? 43) || (c =? 45).

(** ** [IdPicker] (lines 26-84) *)

(** [type IdName = { id: string; name: string }]. *)
Record IdName := mkIdName { item_id : jsstring; item_name : jsstring }.

Section IdPicker.

(** [String.prototype.toLowerCase] on arbitrary strings (the Unicode case
    mapping); the picker's results are stated for every such function. *)
Variable lower : jsstring -> jsstring.

(** The [useMemo] of lines 38-42. *)
Definition filtered (items : list IdName) (q : jsstring) : list IdName :=
  let qq := lower (trim q) in
  if negb (truthy qq) then items
  else filter (fun i => str_includes (lower (item_name i)) qq
                        || str_includes (lower (item_id i)) qq) items.

(** What the component renders: the badge count, the rows (an item and
    whether its checkbox is checked), the "No matches" text and the
    "Showing first 200 results" note (lines 52-83). *)
Record PickerView := mkPickerView {
  badge_count : nat;
  rows : list (IdName * bool);
  no_matches : bool;
  more_note : bool
}.

Definition render_picker (items : list IdName) (selectedIds : list jsstring)
    (q : jsstring) : PickerView :=
  let f := filtered items q in
  mkPickerView (List.length selectedIds)
    (if Nat.eqb (List.length f) 0 then []
     else map (fun item => (item, includes selectedIds (item_id item))) (firstn 200 f))
    (Nat.eqb (List.length f) 0)
    (Nat.ltb 200 (List.length f)).

End IdPicker.

(** [toggle] (lines 44-50): the selection handed to [onChange]. *)
Definition toggle (selectedIds : list jsstring) (id : jsstring) : list jsstring :=
  if includes selectedIds id
  then filter (fun x => negb (jsstring_eqb x id)) selectedIds
  else uniqStrings (selectedIds ++ [id]).

(** ** [AddCouponPage] (lines 86-190 and the form of lines 225-390)

    The page state, the form and the payload are records of their own, in
    a module, since their field names ([name], [code], ...) are also used
    elsewhere in this development. *)

Module CouponPage.

(** The values [res.json()] resolves to, and [undefined] (which optional
    chaining yields for a missing property).  JSON numbers are binary64. *)
#[warnings="-register-all"]
Inductive value :=
  | Undefined
  | JNull
  | JBool (b : bool)
  | JNum (f : PrimFloat.float)
  | JStr (s : jsstring)
  | JArr (xs : list value)
  | JObj (fields : list (jsstring * value)).

(** JavaScript truthiness: objects and arrays are truthy even when empty. *)
Definition value_truthy (v : value) : bool :=
  match v with
  | Undefined | JNull => false
  | JBool b => b
  | JNum f => negb (PrimFloat.is_nan f || PrimFloat.is_zero f)
  | JStr s => truthy s
  | JArr _ | JObj _ => true
  end.

(** An own property of a parsed object: when a key is repeated,
    [JSON.parse] keeps the last value. *)
Definition obj_lookup (fields : list (jsstring * value)) (k : jsstring) : value :=
  match find (fun kv => jsstring_eqb (fst kv) k) (rev fields) with
  | Some (_, v) => v
  | None => Undefined
  end.

(** [v?.k] for the keys this page reads ([product], [id], [name], [error]):
    [undefined] on [null] and [undefined], the own property on an object,
    and [undefined] on arrays, strings, numbers and booleans, which have no
    such property. *)
Definition opt_get (v : value) (k : jsstring) : value :=
  match v with
  | JObj fields => obj_lookup fields k
  | _ => Undefined
  end.

(** [v.k]: the same, except that it throws a [TypeError] on [null] and
    [undefined] ([None]). *)
Definition get (v : value) (k : jsstring) : option value :=
  match v with
  | Undefined | JNull => None
  | _ => Some (opt_get v k)
  end.

(** A [fetch] response: its [ok] flag and what [res.json()] does with its
    body ([None]: the body is not JSON and the promise rejects). *)
Record FetchResponse := mkFetchResponse { res_ok : bool; res_json : option value }.

(** Lines 124-132: the items of [prodData] and [catData]. *)
Definition prodItems (prodData : value) : list (value * value) :=
  match prodData with
  | JArr ps =>
      filter (fun x => value_truthy (fst x) && value_truthy (snd x))
        (map (fun p => (opt_get (opt_get p (js "product")) (js "id"),
                        opt_get (opt_get p (js "product")) (js "name"))) ps)
  | _ => []
  end.

Definition catItems (catData : value) : list (value * value) :=
  match catData with
  | JArr cs =>
      filter (fun x => value_truthy (fst x) && value_truthy (snd x))
        (map (fun c => (opt_get c (js "id"), opt_get c (js "name"))) cs)
  | _ => []
  end.

(** The [useState] hooks of lines 89-93. *)
Record PageState := mkPageState {
  products : list (value * value);
  categories : list (value * value);
  loading : bool;
  submitting : bool;
  error : jsstring
}.

Definition initial_state : PageState := mkPageState [] [] true false [].

Definition set_loading (st : PageState) (b : bool) : PageState :=
  mkPageState (products st) (categories st) b (submitting st) (error st).
Definition set_submitting (st : PageState) (b : bool) : PageState :=
  mkPageState (products st) (categories st) (loading st) b (error st).
Definition set_error (st : PageState) (e : jsstring) : PageState :=
  mkPageState (products st) (categories st) (loading st) (submitting st) e.
Definition set_lists (st : PageState) (ps cs : list (value * value)) : PageState :=
  mkPageState ps cs (loading st) (submitting st) (error st).

Definition load_error_message : jsstring := js "Failed to load products/categories".

(** [fetchPicklists] (lines 116-141).  [prodRes] and [catRes] are the
    settled [fetch] calls ([None]: the promise rejects, which makes
    [Promise.all] reject); the bodies are read in order, products first. *)
Definition fetchPicklists (st : PageState) (prodRes catRes : option FetchResponse)
    : PageState :=
  let st := set_loading st true in
  let attempt :=
    match prodRes, catRes with
    | Some pr, Some cr =>
        match res_json pr with
        | None => None
        | Some prodData =>
            match res_json cr with
            | None => None
            | Some catData => Some (prodItems prodData, catItems catData)
            end
        end
    | _, _ => None
    end in
  let st := match attempt with
            | Some (ps, cs) => set_lists st ps cs
            | None => set_error st load_error_message
            end in
  set_loading st false.

(** The form (lines 95-113); [discountType] comes from a [select] whose
    only options are [percent] and [fixed]. *)
Inductive DiscountType := Percent | Fixed.

Record CouponForm := mkCouponForm {
  code : jsstring;
  name : jsstring;
  description : jsstring;
  discountType : DiscountType;
  discountValue : jsstring;
  maxDiscountAmount : jsstring;
  minSubtotal : jsstring;
  startAt : jsstring;
  endAt : jsstring;
  usageLimitTotal : jsstring;
  usageLimitPerUser : jsstring;
  firstOrderOnly : bool;
  isActive : bool;
  includedProductIds : list jsstring;
  excludedProductIds : list jsstring;
  includedCategoryIds : list jsstring;
  excludedCategoryIds : list jsstring
}.

Definition initial_form : CouponForm :=
  mkCouponForm [] [] [] Percent [] [] [] [] [] [] [] false true [] [] [] [].

(** The [onChange] handlers of the inputs (lines 233-384), each a
    [setForm((p) => ({ ...p, field: ... }))]. *)
Inductive FormEdit :=
  | EditCode (typed : jsstring)
  | EditName (typed : jsstring)
  | EditDescription (typed : jsstring)
  | EditDiscountType (t : DiscountType)
  | EditDiscountValue (typed : jsstring)
  | EditMaxDiscountAmount (typed : jsstring)
  | EditMinSubtotal (typed : jsstring)
  | EditStartAt (typed : jsstring)
  | EditEndAt (typed : jsstring)
  | EditUsageLimitTotal (typed : jsstring)
  | EditUsageLimitPerUser (typed : jsstring)
  | EditFirstOrderOnly (checked : bool)
  | EditIsActive (checked : bool)
  | EditIncludedProductIds (next : list jsstring)
  | EditExcludedProductIds (next : list jsstring)
  | EditIncludedCategoryIds (next : list jsstring)
  | EditExcludedCategoryIds (next : list jsstring).

(** The payload of lines 152-170; [None] is [null].  [discountValue] holds
    the number [Number(form.discountValue)]. *)
Record Payload := mkPayload {
  p_code : jsstring;
  p_name : option jsstring;
  p_description : option jsstring;
  p_discountType : DiscountType;
  p_discountValue : numeral;
  p_maxDiscountAmount : option jsstring;
  p_minSubtotal : option jsstring;
  p_startAt : option jsstring;
  p_endAt : option jsstring;
  p_usageLimitTotal : option jsstring;
  p_usageLimitPerUser : option jsstring;
  p_firstOrderOnly : bool;
  p_isActive : bool;
  p_includedProductIds : list jsstring;
  p_excludedProductIds : list jsstring;
  p_includedCategoryIds : list jsstring;
  p_excludedCategoryIds : list jsstring
}.

(** [s || null] for a string [s]. *)
Definition or_null (s : jsstring) : option jsstring := if truthy s then Some s else None.

Definition build_payload (form : CouponForm) : Payload :=
  mkPayload (code form) (or_null (name form)) (or_null (description form))
    (discountType form) (StringToNumber (discountValue form))
    (match discountType form with
     | Percent => or_null (maxDiscountAmount form)
     | Fixed => None
     end)
    (or_null (minSubtotal form)) (or_null (startAt form)) (or_null (endAt form))
    (or_null (usageLimitTotal form)) (or_null (usageLimitPerUser form))
    (firstOrderOnly form) (isActive form)
    (includedProductIds form) (excludedProductIds form)
    (includedCategoryIds form) (excludedCategoryIds form).

(** [JSON.stringify] of a number: non-finite numbers are written [null]. *)
Definition json_number (n : numeral) : option numeral :=
  if numeral_isFinite n then Some n else None.

Definition create_error_message : jsstring := js "Failed to create coupon".

Section Handlers.

(** [String.prototype.toUpperCase] (the code input, line 233). *)
Variable toUpperCase : jsstring -> jsstring.

Definition apply_edit (p : CouponForm) (e : FormEdit) : CouponForm :=
  let '(mkCouponForm c n d t v m s sa ea ut up fo ia ip ep ic ec) := p in
  match e with
  | EditCode x => mkCouponForm (toUpperCase x) n d t v m s sa ea ut up fo ia ip ep ic ec
  | EditName x => mkCouponForm c x d t v m s sa ea ut up fo ia ip ep ic ec
  | EditDescription x => mkCouponForm c n x t v m s sa ea ut up fo ia ip ep ic ec
  | EditDiscountType x => mkCouponForm c n d x v m s sa ea ut up fo ia ip ep ic ec
  | EditDiscountValue x => mkCouponForm c n d t (formatNumber x) m s sa ea ut up fo ia ip ep ic ec
  | EditMaxDiscountAmount x => mkCouponForm c n d t v (formatNumber x) s sa ea ut up fo ia ip ep ic ec
  | EditMinSubtotal x => mkCouponForm c n d t v m (formatNumber x) sa ea ut up fo ia ip ep ic ec
  | EditStartAt x => mkCouponForm c n d t v m s x ea ut up fo ia ip ep ic ec
  | EditEndAt x => mkCouponForm c n d t v m s sa x ut up fo ia ip ep ic ec
  | EditUsageLimitTotal x => mkCouponForm c n d t v m s sa ea x up fo ia ip ep ic ec
  | EditUsageLimitPerUser x => mkCouponForm c n d t v m s sa ea ut x fo ia ip ep ic ec
  | EditFirstOrderOnly x => mkCouponForm c n d t v m s sa ea ut up x ia ip ep ic ec
  | EditIsActive x => mkCouponForm c n d t v m s sa ea ut up fo x ip ep ic ec
  | EditIncludedProductIds x => mkCouponForm c n d t v m s sa ea ut up fo ia x ep ic ec
  | EditExcludedProductIds x => mkCouponForm c n d t v m s sa ea ut up fo ia ip x ic ec
  | EditIncludedCategoryIds x => mkCouponForm c n d t v m s sa ea ut up fo ia ip ep x ec
  | EditExcludedCategoryIds x => mkCouponForm c n d t v m s sa ea ut up fo ia ip ep ic x
  end.

Definition form_after (edits : list FormEdit) : CouponForm :=
  fold_left apply_edit edits initial_form.

(** The messages of errors the code does not construct itself: the
    [TypeError] of a rejected [fetch], the one of reading [error] on a
    [null] body, and [String(x)] of a truthy non-string [data.error]. *)
Variable fetch_failure_message : jsstring.
Variable null_property_message : jsstring.
Variable value_to_string : value -> jsstring.

(** [new Error(x).message] for the thrown [x]. *)
Definition error_message (x : value) : jsstring :=
  match x with
  | JStr s => s
  | _ => value_to_string x
  end.

(** [onSubmit] (lines 146-190): the state afterwards, the payload posted,
    and whether [router.push('/coupons')] ran.  [resp] is the settled
    [fetch] ([None]: it rejects). *)
Definition onSubmit (st : PageState) (form : CouponForm) (resp : option FetchResponse)
    : PageState * Payload * bool :=
  let st := set_error (set_submitting st true) [] in
  let payload := build_payload form in
  let result : option jsstring :=
    match resp with
    | None => Some fetch_failure_message
    | Some r =>
        if res_ok r then None
        else
          let data := match res_json r with Some d => d | None => JObj [] end in
          match get data (js "error") with
          | None => Some null_property_message
          | Some x =>
              Some (error_message (if value_truthy x then x else JStr create_error_message))
          end
    end in
  match result with
  | None => (set_submitting st false, payload, true)
  | Some msg => (set_submitting (set_error st msg) false, payload, false)
  end.

End Handlers.

End CouponPage.

(** Test data. *)
Definition photo : File := mkFile (js "My Photo.png") (js "image/png") 1000.

Definition req_photo : Request := mkRequest (Some (EntryFile photo)) None.

Definition cfg_gcs : Config := mkConfig (Some (js "b")) true None.

Definition cfg_blob : Config := mkConfig None false (Some (js "token")).

Definition timeout_error : thrown := ErrorObj (js "socket hang up").

(** A backend whose first [n] write attempts throw and whose later ones
    succeed with URL [u]. *)
Definition failing_first (n : nat) (u : jsstring) : nat -> outcome :=
  fun i => if (i <? n)%nat then Failed timeout_error else Saved u.

(** The trace of [k] failed write attempts, each followed by a one-second
    pause, then one last attempt. *)
Fixpoint attempts (b : Backend) (key : jsstring) (k : nat) : list event :=
  match k with
  | O => [EvWrite b key]
  | S k' => EvWrite b key :: EvSleep 1000 :: attempts b key k'
  end.

(** ** Tests *)

Example sanitize_ex1 :
  sanitize (js "My  Photo (1).PNG") = js "my-photo-1.png".
Proof. reflexivity. Qed.

Example sanitize_ex2 :
  sanitize [32; 160; 10; 65] = js "-a".
Proof. reflexivity. Qed.

Example number_to_string_ex :
  number_to_string 1700000000123%N = js "1700000000123".
Proof. reflexivity. Qed.


Example post_gcs_ex :
  POST_gcs (mkConfig (Some (js "b")) true None)
    (mkRequest (Some (EntryFile photo)) None) 7 (fun _ => Saved [])
  = ([EvWrite GCS (js "general/7-my-photo.png")],
     JsonOk (js "https://storage.googleapis.com/b/general/7-my-photo.png")
            (js "general/7-my-photo.png") None).
Proof. reflexivity. Qed.

(** ** Retry loop *)

Section RetryLoop.

Variables (b : Backend) (key : jsstring) (write : nat -> outcome).

Lemma retry_loop_success_at :
  forall k n i u,
    (k < n)%nat ->
    (forall j, (j < k)%nat -> exists e, write (i + j) = Failed e) ->
    write (i + k)%nat = Saved u ->
    retry_loop b key write n i = (attempts b key k, LoopBroke u).
Proof.
  induction k as [|k IH]; intros n i u Hlt Hfail Hok.
  - destruct n as [|n]; [lia|]. simpl.
    rewrite Nat.add_0_r in Hok. rewrite Hok. reflexivity.
  - destruct n as [|n]; [lia|]. simpl.
    destruct (Hfail 0%nat ltac:(lia)) as [e He].
    rewrite Nat.add_0_r in He. rewrite He.
    destruct n as [|n']; [lia|].
    rewrite (IH (S n') (S i) u).
    + reflexivity.
    + lia.
    + intros j Hj. destruct (Hfail (S j) ltac:(lia)) as [e' He'].
      exists e'. rewrite <- He'. f_equal. lia.
    + rewrite <- Hok. f_equal. lia.
Qed.

Lemma retry_loop_three_failures :
  forall e1 e2 e3,
    write 0%nat = Failed e1 -> write 1%nat = Failed e2 -> write 2%nat = Failed e3 ->
    retry_loop b key write initial_retries 0 = (attempts b key 2, LoopThrew e3).
Proof.
  intros e1 e2 e3 H1 H2 H3. simpl. rewrite H1, H2, H3. reflexivity.
Qed.

Lemma retry_loop_writes :
  forall n i,
    Forall (fun ev => match ev with
                      | EvWrite b' k => b' = b /\ k = key
                      | EvSleep ms => ms = 1000
                      end) (fst (retry_loop b key write n i)).
Proof.
  induction n as [|n IH]; intros i; simpl; [constructor|].
  destruct (write i) as [u|e].
  - repeat constructor.
  - destruct n as [|n'].
    + repeat constructor.
    + specialize (IH (S i)). destruct (retry_loop b key write (S n') (S i)) as [tr res].
      simpl in *. repeat constructor; assumption.
Qed.

Lemma retry_loop_broke_saved :
  forall n i tr u,
    retry_loop b key write n i = (tr, LoopBroke u) -> exists j, write j = Saved u.
Proof.
  induction n as [|n IH]; intros i tr u H; simpl in H; [discriminate|].
  destruct (write i) as [u'|e] eqn:Hw.
  - inversion H; subst. eauto.
  - destruct n as [|n']; [discriminate|].
    destruct (retry_loop b key write (S n') (S i)) as [tr' res] eqn:Hr.
    inversion H; subst. eapply IH; eauto.
Qed.

End RetryLoop.

(** ** Handler paths *)

Lemma gcs_public_url_truthy : forall b k, truthy (gcs_public_url b k) = true.
Proof. reflexivity. Qed.

Section Paths.

Variables (cfg : Config) (req : Request) (now : N) (write : nat -> outcome)
          (f : File) (d : jsstring).
Hypothesis Hv : validate req = inr (f, d).

Lemma POST_fallback_gcs_path :
  forall b, GCS_BUCKET_NAME cfg = Some b -> truthy b = true -> storage_ok cfg = true ->
  let key := object_key d now (name f) in
  POST_fallback cfg req now write =
    (fst (retry_loop GCS key write initial_retries 0),
     match snd (retry_loop GCS key write initial_retries 0) with
     | LoopBroke _ => JsonOk (gcs_public_url b key) key (Some (js "gcs"))
     | LoopThrew e => catch_upload_error (inl e)
     | LoopExited => catch_upload_error (inl (ErrorObj (js "Upload failed - no URL returned")))
     end).
Proof.
  intros b Hb Ht Hs. cbv zeta. unfold POST_fallback. rewrite Hv, Hb, Ht, Hs.
  cbn [andb]. unfold uploadToGCS.
  destruct (retry_loop GCS (object_key d now (name f)) write initial_retries 0)
    as [tr [u|e|]]; reflexivity.
Qed.

Lemma POST_fallback_blob_path :
  use_gcs cfg = false -> env_truthy (BLOB_READ_WRITE_TOKEN cfg) = true ->
  let key := object_key d now (name f) in
  POST_fallback cfg req now write =
    (fst (retry_loop VercelBlob key write initial_retries 0),
     match snd (retry_loop VercelBlob key write initial_retries 0) with
     | LoopBroke u => JsonOk u key (Some (js "vercel-blob"))
     | LoopThrew e => catch_upload_error (inl e)
     | LoopExited => catch_upload_error (inl (ErrorObj (js "Upload failed - no blob returned")))
     end).
Proof.
  intros Hg Ht. cbv zeta. unfold POST_fallback. rewrite Hv.
  assert (Hup : forall x,
    (let '(tr, res) := uploadToVercelBlob cfg (object_key d now (name f)) write in
     (tr, catch_upload_error res)) = x ->
    (let '(tr, res) :=
       match GCS_BUCKET_NAME cfg with
       | Some bucketName =>
           if truthy bucketName && storage_ok cfg
           then uploadToGCS bucketName (object_key d now (name f)) write
           else uploadToVercelBlob cfg (object_key d now (name f)) write
       | None => uploadToVercelBlob cfg (object_key d now (name f)) write
       end in (tr, catch_upload_error res)) = x).
  { unfold use_gcs, env_truthy in Hg.
    destruct (GCS_BUCKET_NAME cfg) as [bn|]; [rewrite Hg|]; intros x Hx; exact Hx. }
  apply Hup. unfold uploadToVercelBlob. rewrite Ht. cbn [negb].
  destruct (retry_loop VercelBlob (object_key d now (name f)) write initial_retries 0)
    as [tr [u|e|]]; reflexivity.
Qed.

Lemma POST_fallback_no_token :
  use_gcs cfg = false -> env_truthy (BLOB_READ_WRITE_TOKEN cfg) = false ->
  POST_fallback cfg req now write =
    ([], JsonErr 500
      (js "Server configuration error: Neither GCS nor Vercel Blob is configured properly") None).
Proof.
  intros Hg Ht. unfold POST_fallback. rewrite Hv. unfold use_gcs in Hg.
  destruct (GCS_BUCKET_NAME cfg) as [bn|]; cbn [env_truthy] in Hg; [rewrite Hg|];
    unfold uploadToVercelBlob; rewrite Ht; reflexivity.
Qed.

Lemma POST_gcs_path :
  forall b, GCS_BUCKET_NAME cfg = Some b -> truthy b = true ->
  let key := object_key d now (sanitize (name f)) in
  POST_gcs cfg req now write =
    (fst (retry_loop GCS key write initial_retries 0),
     match snd (retry_loop GCS key write initial_retries 0) with
     | LoopBroke _ => JsonOk (gcs_public_url b key) key None
     | LoopThrew e => catch_upload_error (inl e)
     | LoopExited => catch_upload_error (inl (ErrorObj (js "Upload failed - no URL returned")))
     end).
Proof.
  intros b Hb Ht. cbv zeta. unfold POST_gcs. rewrite Hv, Hb, Ht. cbn [negb].
  destruct (retry_loop GCS (object_key d now (sanitize (name f))) write initial_retries 0)
    as [tr [u|e|]]; reflexivity.
Qed.

End Paths.

Lemma POST_fallback_rejected :
  forall cfg req now write r,
    validate req = inl r -> POST_fallback cfg req now write = ([], rejection_response r).
Proof. intros cfg req now write r H. unfold POST_fallback. rewrite H. reflexivity. Qed.

Lemma POST_gcs_rejected :
  forall cfg req now write r,
    validate req = inl r -> POST_gcs cfg req now write = ([], rejection_response r).
Proof. intros cfg req now write r H. unfold POST_gcs. rewrite H. reflexivity. Qed.

(** ** Retry policy *)

(** C2: when the write fails on the first two attempts and succeeds on the
    third, exactly three writes of the object key happen, separated by
    one-second pauses, and the response is a success carrying the URL: the
    public cloud-store URL or the URL returned by the blob store, in both
    handlers.  And for every storage behaviour, a success at attempt [n]
    (the first, second or third) ends the handler after exactly [n + 1]
    writes, with the same pauses and the same success response: no write
    follows a success. *)
Theorem retry_fails_twice_then_succeeds :
  (forall cfg req now write f d e1 e2 u,
    validate req = inr (f, d) ->
    write 0%nat = Failed e1 -> write 1%nat = Failed e2 -> write 2%nat = Saved u ->
    (forall b, GCS_BUCKET_NAME cfg = Some b -> truthy b = true -> storage_ok cfg = true ->
       let k := object_key d now (name f) in
       POST_fallback cfg req now write =
         ([EvWrite GCS k; EvSleep 1000; EvWrite GCS k; EvSleep 1000; EvWrite GCS k],
          JsonOk (gcs_public_url b k) k (Some (js "gcs"))))
    /\ (use_gcs cfg = false -> env_truthy (BLOB_READ_WRITE_TOKEN cfg) = true ->
       let k := object_key d now (name f) in
       POST_fallback cfg req now write =
         ([EvWrite VercelBlob k; EvSleep 1000; EvWrite VercelBlob k; EvSleep 1000;
           EvWrite VercelBlob k],
          JsonOk u k (Some (js "vercel-blob"))))
    /\ (forall b, GCS_BUCKET_NAME cfg = Some b -> truthy b = true ->
       let k := object_key d now (sanitize (name f)) in
       POST_gcs cfg req now write =
         ([EvWrite GCS k; EvSleep 1000; EvWrite GCS k; EvSleep 1000; EvWrite GCS k],
          JsonOk (gcs_public_url b k) k None)))
  /\
  (forall cfg req now write f d n u,
    validate req = inr (f, d) ->
    (n < 3)%nat ->
    (forall j, (j < n)%nat -> exists e, write j = Failed e) ->
    write n = Saved u ->
    (forall b, GCS_BUCKET_NAME cfg = Some b -> truthy b = true -> storage_ok cfg = true ->
       let k := object_key d now (name f) in
       POST_fallback cfg req now write =
         (attempts GCS k n, JsonOk (gcs_public_url b k) k (Some (js "gcs"))))
    /\ (use_gcs cfg = false -> env_truthy (BLOB_READ_WRITE_TOKEN cfg) = true ->
       let k := object_key d now (name f) in
       POST_fallback cfg req now write =
         (attempts VercelBlob k n, JsonOk u k (Some (js "vercel-blob"))))
    /\ (forall b, GCS_BUCKET_NAME cfg = Some b -> truthy b = true ->
       let k := object_key d now (sanitize (name f)) in
       POST_gcs cfg req now write =
         (attempts GCS k n, JsonOk (gcs_public_url b k) k None))).
Proof.
  assert (Hgen : forall cfg req now write f d n u,
    validate req = inr (f, d) ->
    (n < 3)%nat ->
    (forall j, (j < n)%nat -> exists e, write j = Failed e) ->
    write n = Saved u ->
    (forall b, GCS_BUCKET_NAME cfg = Some b -> truthy b = true -> storage_ok cfg = true ->
       let k := object_key d now (name f) in
       POST_fallback cfg req now write =
         (attempts GCS k n, JsonOk (gcs_public_url b k) k (Some (js "gcs"))))
    /\ (use_gcs cfg = false -> env_truthy (BLOB_READ_WRITE_TOKEN cfg) = true ->
       let k := object_key d now (name f) in
       POST_fallback cfg req now write =
         (attempts VercelBlob k n, JsonOk u k (Some (js "vercel-blob"))))
    /\ (forall b, GCS_BUCKET_NAME cfg = Some b -> truthy b = true ->
       let k := object_key d now (sanitize (name f)) in
       POST_gcs cfg req now write =
         (attempts GCS k n, JsonOk (gcs_public_url b k) k None))).
  { intros cfg req now write f d n u Hv Hn Hf Hs.
    assert (Hloop : forall bk key,
      retry_loop bk key write initial_retries 0 = (attempts bk key n, LoopBroke u)).
    { intros bk key. apply retry_loop_success_at; [unfold initial_retries; lia|exact Hf|exact Hs]. }
    split; [|split].
    - intros b Hb Ht Ho k. rewrite (POST_fallback_gcs_path cfg req now write f d Hv b Hb Ht Ho).
      fold k. rewrite Hloop. reflexivity.
    - intros Hg Ht k. rewrite (POST_fallback_blob_path cfg req now write f d Hv Hg Ht).
      fold k. rewrite Hloop. reflexivity.
    - intros b Hb Ht k. rewrite (POST_gcs_path cfg req now write f d Hv b Hb Ht).
      fold k. rewrite Hloop. reflexivity. }
  split; [|exact Hgen].
  intros cfg req now write f d e1 e2 u Hv H0 H1 H2.
  apply (Hgen cfg req now write f d 2%nat u Hv ltac:(lia)); [|exact H2].
  intros j Hj. destruct j as [|[|j]]; [eauto|eauto|lia].
Qed.

(** C3: when all three write attempts fail, the loop stops after the third
    attempt (whatever later attempts would do) and the response is a 500
    whose [details] is the message of the third error, in both handlers
    and with either backend. *)
Theorem retry_all_fail_last_error :
  forall cfg req now write f d e1 e2 m3,
    validate req = inr (f, d) ->
    write 0%nat = Failed e1 -> write 1%nat = Failed e2 -> write 2%nat = Failed (ErrorObj m3) ->
    (forall b, GCS_BUCKET_NAME cfg = Some b -> truthy b = true -> storage_ok cfg = true ->
       let k := object_key d now (name f) in
       POST_fallback cfg req now write =
         ([EvWrite GCS k; EvSleep 1000; EvWrite GCS k; EvSleep 1000; EvWrite GCS k],
          JsonErr 500 (js "Failed to upload file") (Some m3)))
    /\ (use_gcs cfg = false -> env_truthy (BLOB_READ_WRITE_TOKEN cfg) = true ->
       let k := object_key d now (name f) in
       POST_fallback cfg req now write =
         ([EvWrite VercelBlob k; EvSleep 1000; EvWrite VercelBlob k; EvSleep 1000;
           EvWrite VercelBlob k],
          JsonErr 500 (js "Failed to upload file") (Some m3)))
    /\ (forall b, GCS_BUCKET_NAME cfg = Some b -> truthy b = true ->
       let k := object_key d now (sanitize (name f)) in
       POST_gcs cfg req now write =
         ([EvWrite GCS k; EvSleep 1000; EvWrite GCS k; EvSleep 1000; EvWrite GCS k],
          JsonErr 500 (js "Failed to upload file") (Some m3))).
Proof.
  intros cfg req now write f d e1 e2 m3 Hv H0 H1 H2.
  assert (Hloop : forall bk key,
    retry_loop bk key write initial_retries 0 = (attempts bk key 2, LoopThrew (ErrorObj m3)))
    by (intros; apply (retry_loop_three_failures _ _ _ e1 e2); assumption).
  split; [|split].
  - intros b Hb Ht Hs k. rewrite (POST_fallback_gcs_path cfg req now write f d Hv b Hb Ht Hs).
    fold k. rewrite Hloop. reflexivity.
  - intros Hg Ht k. rewrite (POST_fallback_blob_path cfg req now write f d Hv Hg Ht).
    fold k. rewrite Hloop. reflexivity.
  - intros b Hb Ht k. rewrite (POST_gcs_path cfg req now write f d Hv b Hb Ht).
    fold k. rewrite Hloop. reflexivity.
Qed.

(** ** Strings and validation *)

Lemma jsstring_eqb_eq : forall a b, jsstring_eqb a b = true <-> a = b.
Proof.
  induction a as [|x a IH]; destruct b as [|y b]; simpl; split; intros H;
    try discriminate; try reflexivity.
  - apply andb_true_iff in H as [Hx Hb]. apply Z.eqb_eq in Hx. apply IH in Hb. subst. reflexivity.
  - inversion H; subst. rewrite Z.eqb_refl. simpl. apply IH. reflexivity.
Qed.

Lemma includes_In : forall xs x, includes xs x = true <-> In x xs.
Proof.
  intros xs x. unfold includes. rewrite existsb_exists. split.
  - intros [y [Hy He]]. apply jsstring_eqb_eq in He. subst. exact Hy.
  - intros H. exists x. split; [exact H|]. apply jsstring_eqb_eq. reflexivity.
Qed.

Lemma use_gcs_iff :
  forall cfg, use_gcs cfg = true <->
    exists b, GCS_BUCKET_NAME cfg = Some b /\ b <> [] /\ storage_ok cfg = true.
Proof.
  intros [[b|] ok tok]; unfold use_gcs, env_truthy; simpl; split.
  - intros H. apply andb_true_iff in H as [Hb Ho].
    exists b. repeat split; auto. intros ->. discriminate.
  - intros [b' [Hb [Hn Ho]]]. injection Hb as Hb. subst b ok.
    destruct b'; [contradiction|reflexivity].
  - discriminate.
  - intros [b' [Hb _]]. discriminate.
Qed.

(** Validation fails exactly where the spec's ordered checks find a
    violation, and with the same rejection. *)
Lemma validate_spec_order :
  forall req,
    match validate req with
    | inl r => first_violation_spec req = Some r
    | inr _ => first_violation_spec req = None
    end.
Proof.
  intros [file dir]. unfold validate, first_violation_spec, spec_checks.
  cbn [form_file form_directory].
  destruct file as [[s|fl]|]; [simpl; destruct (truthy s); reflexivity| |simpl; reflexivity].
  cbn [file_missing type_allowed truthy negb find snd fst option_map].
  destruct (includes allowedTypes (type fl)); [|simpl; reflexivity].
  cbn [negb find snd fst option_map].
  destruct (size fl >? maxSize); [simpl; reflexivity|].
  cbn [negb find snd fst option_map].
  destruct (directory_value dir) as [ds|df]; [|simpl; reflexivity].
  cbn [negb directory_allowed find snd fst option_map].
  destruct (includes allowedDirectories ds); simpl; reflexivity.
Qed.

Lemma validate_ok_inv :
  forall req f d, validate req = inr (f, d) ->
    form_file req = Some (EntryFile f) /\
    includes allowedTypes (type f) = true /\ size f <= maxSize /\
    directory_value (form_directory req) = EntryStr d /\
    includes allowedDirectories d = true.
Proof.
  intros [file dir] f d H. unfold validate in H. cbn [form_file form_directory] in *.
  destruct file as [[s|fl]|]; [simpl in H; destruct (truthy s); discriminate| |discriminate].
  cbn [file_missing type_allowed truthy negb] in H.
  destruct (includes allowedTypes (type fl)) eqn:Ht; cbn [negb] in H; [|discriminate].
  destruct (size fl >? maxSize) eqn:Hs; [discriminate|].
  destruct (directory_value dir) as [ds|df] eqn:Hd; cbn [negb directory_allowed] in H;
    [|discriminate].
  destruct (includes allowedDirectories ds) eqn:Hi; cbn [negb] in H; [|discriminate].
  - 
    inversion H; subst. repeat split; auto. rewrite Z.gtb_ltb in Hs.
    apply Z.ltb_ge in Hs. exact Hs.
Qed.

Lemma validate_file_checks :
  forall req f,
    form_file req = Some (EntryFile f) ->
    validate req =
      if negb (includes allowedTypes (type f)) then inl InvalidType else
      if size f >? maxSize then inl TooLarge else
      match directory_value (form_directory req) with
      | EntryStr d => if includes allowedDirectories d then inr (f, d) else inl InvalidDirectory
      | EntryFile _ => inl InvalidDirectory
      end.
Proof.
  intros [file dir] f H. cbn [form_file form_directory] in *. subst. unfold validate.
  cbn [form_file form_directory file_missing type_allowed truthy negb].
  destruct (includes allowedTypes (type f)); cbn [negb]; [|reflexivity].
  destruct (size f >? maxSize); [reflexivity|].
  destruct (directory_value dir) as [ds|df]; cbn [negb directory_allowed]; [|reflexivity].
  destruct (includes allowedDirectories ds); reflexivity.
Qed.

(** ** Effects of the handlers *)

Lemma POST_fallback_trace :
  forall cfg req now write f d,
    validate req = inr (f, d) ->
    Forall (writes_to (if use_gcs cfg then GCS else VercelBlob) (object_key d now (name f)))
      (fst (POST_fallback cfg req now write)).
Proof.
  intros cfg req now write f d Hv.
  destruct (use_gcs cfg) eqn:Hg.
  - apply use_gcs_iff in Hg as [b [Hb [Hn Hs]]].
    assert (Ht : truthy b = true) by (destruct b; [contradiction|reflexivity]).
    rewrite (POST_fallback_gcs_path cfg req now write f d Hv b Hb Ht Hs). cbn [fst].
    eapply Forall_impl; [|apply retry_loop_writes].
    intros [bk k|ms]; simpl; tauto.
  - destruct (env_truthy (BLOB_READ_WRITE_TOKEN cfg)) eqn:Ht.
    + rewrite (POST_fallback_blob_path cfg req now write f d Hv Hg Ht). cbn [fst].
      eapply Forall_impl; [|apply retry_loop_writes].
      intros [bk k|ms]; simpl; tauto.
    + rewrite (POST_fallback_no_token cfg req now write f d Hv Hg Ht). constructor.
Qed.

Lemma POST_gcs_trace :
  forall cfg req now write f d,
    validate req = inr (f, d) ->
    Forall (writes_to GCS (object_key d now (sanitize (name f))))
      (fst (POST_gcs cfg req now write)).
Proof.
  intros cfg req now write f d Hv.
  destruct (GCS_BUCKET_NAME cfg) as [b|] eqn:Hb.
  - destruct (truthy b) eqn:Ht.
    + rewrite (POST_gcs_path cfg req now write f d Hv b Hb Ht). cbn [fst].
      eapply Forall_impl; [|apply retry_loop_writes].
      intros [bk k|ms]; simpl; tauto.
    + unfold POST_gcs. rewrite Hv, Hb, Ht. simpl. constructor.
  - unfold POST_gcs. rewrite Hv, Hb. simpl. constructor.
Qed.

(** ** Sanitized names *)

Ltac zbool :=
  repeat (rewrite ?Bool.orb_true_iff, ?Bool.andb_true_iff, ?Z.leb_le, ?Z.eqb_eq in *).

Lemma sanitized_unit_not_whitespace :
  forall c, (97 <= c <= 122) \/ (48 <= c <= 57) \/ c = 46 \/ c = 45 ->
    is_js_whitespace c = false.
Proof.
  intros c Hc. destruct (is_js_whitespace c) eqn:E; [|reflexivity].
  unfold is_js_whitespace in E. zbool. lia.
Qed.

Lemma sanitized_unit_kept :
  forall c, (97 <= c <= 122) \/ (48 <= c <= 57) \/ c = 46 \/ c = 45 ->
    is_kept_char c = true.
Proof. intros c Hc. unfold is_kept_char. zbool. lia. Qed.

Lemma sanitized_unit_lower :
  forall c, (97 <= c <= 122) \/ (48 <= c <= 57) \/ c = 46 \/ c = 45 ->
    to_lower_unit c = c.
Proof.
  intros c Hc. unfold to_lower_unit.
  destruct ((65 <=? c) && (c <=? 90)) eqn:E; [|reflexivity]. zbool. lia.
Qed.

Lemma sanitize_units :
  forall s, Forall (fun c => (97 <= c <= 122) \/ (48 <= c <= 57) \/ c = 46 \/ c = 45)
                   (sanitize s).
Proof.
  intros s. unfold sanitize, toLowerCase, strip_special.
  apply Forall_map, Forall_forall. intros c Hc.
  apply filter_In in Hc as [_ Hk]. unfold is_kept_char in Hk. unfold to_lower_unit.
  destruct ((65 <=? c) && (c <=? 90)) eqn:E; zbool; lia.
Qed.

Lemma replace_ws_runs_id :
  forall s b, Forall (fun c => is_js_whitespace c = false) s -> replace_ws_runs b s = s.
Proof.
  induction s as [|c s IH]; intros b H; [reflexivity|].
  inversion H as [|? ? Hc Hs]; subst. simpl. rewrite Hc, IH; auto.
Qed.

(** ** Claims *)

(** C1 (the handler with the storage selector, lines 24-112): the object
    key is built from the raw [file.name], not from the sanitized name.
    For a file named "My Photo.png" stored at timestamp 0 under the default
    directory, the key written and returned is "general/0-My Photo.png",
    not "general/0-my-photo.png" as the sanitized formula gives. *)
Theorem fallback_key_not_sanitized :
  POST_fallback cfg_gcs req_photo 0 (failing_first 0 []) =
    ([EvWrite GCS (js "general/0-My Photo.png")],
     JsonOk (js "https://storage.googleapis.com/b/general/0-My Photo.png")
            (js "general/0-My Photo.png") (Some (js "gcs")))
  /\ js "general/0-My Photo.png" <> object_key (js "general") 0 (sanitize (name photo)).
Proof. split; [reflexivity|]. vm_compute. discriminate. Qed.

(** C4: a request carrying a file that fails the MIME-type check, the size
    check (more than 15 MiB) or the directory check is rejected by the
    first of these checks it fails, with status 400, and neither handler
    writes to storage or pauses (the effect trace is empty). *)
Theorem validation_failure_no_write :
  forall cfg req now write f,
    form_file req = Some (EntryFile f) ->
    (includes allowedTypes (type f) = false \/ size f > maxSize \/
     directory_allowed (directory_value (form_directory req)) = false) ->
    exists r,
      validate req = inl r /\
      ((r = InvalidType /\ includes allowedTypes (type f) = false) \/
       (r = TooLarge /\ size f > maxSize) \/
       (r = InvalidDirectory /\
        directory_allowed (directory_value (form_directory req)) = false)) /\
      status (rejection_response r) = 400 /\
      POST_fallback cfg req now write = ([], rejection_response r) /\
      POST_gcs cfg req now write = ([], rejection_response r).
Proof.
  intros cfg req now write f Hf Hbad.
  pose proof (validate_file_checks req f Hf) as Hv.
  assert (Hfin : forall r, validate req = inl r ->
    ((r = InvalidType /\ includes allowedTypes (type f) = false) \/
     (r = TooLarge /\ size f > maxSize) \/
     (r = InvalidDirectory /\
      directory_allowed (directory_value (form_directory req)) = false)) ->
    exists r', validate req = inl r' /\
      ((r' = InvalidType /\ includes allowedTypes (type f) = false) \/
       (r' = TooLarge /\ size f > maxSize) \/
       (r' = InvalidDirectory /\
        directory_allowed (directory_value (form_directory req)) = false)) /\
      status (rejection_response r') = 400 /\
      POST_fallback cfg req now write = ([], rejection_response r') /\
      POST_gcs cfg req now write = ([], rejection_response r')).
  { intros r Hr Hc. exists r. repeat split; auto.
    - destruct r; reflexivity.
    - apply POST_fallback_rejected; exact Hr.
    - apply POST_gcs_rejected; exact Hr. }
  destruct (includes allowedTypes (type f)) eqn:Ht.
  - destruct (size f >? maxSize) eqn:Hs.
    + apply (Hfin TooLarge); [exact Hv|]. right; left. split; [reflexivity|].
      apply Z.gtb_lt in Hs. lia.
    + destruct (directory_value (form_directory req)) as [ds|df] eqn:Hd.
      * destruct (includes allowedDirectories ds) eqn:Hi.
        -- exfalso. destruct Hbad as [Hb|[Hb|Hb]]; [discriminate| |].
           ++ rewrite Z.gtb_ltb in Hs. apply Z.ltb_ge in Hs. lia.
           ++ cbn [directory_allowed] in Hb. congruence.
        -- apply (Hfin InvalidDirectory); [exact Hv|]. right; right.
           split; [reflexivity|]. cbn [directory_allowed]. exact Hi.
      * apply (Hfin InvalidDirectory); [exact Hv|]. right; right. split; reflexivity.
  - apply (Hfin InvalidType); [exact Hv|]. left. split; reflexivity.
Qed.

(** C5: the checks run in the order missing file, MIME type, byte size,
    directory; the first violated one (as computed by the spec's ordered
    list [first_violation_spec]) is the rejection, and a rejection has no
    effect in either handler. *)
Theorem validation_order :
  forall req,
    (match validate req with
     | inl r => first_violation_spec req = Some r
     | inr _ => first_violation_spec req = None
     end) /\
    (forall cfg now write r, validate req = inl r ->
       POST_fallback cfg req now write = ([], rejection_response r) /\
       POST_gcs cfg req now write = ([], rejection_response r)).
Proof.
  intros req. split; [apply validate_spec_order|].
  intros cfg now write r Hr. split.
  - apply POST_fallback_rejected; exact Hr.
  - apply POST_gcs_rejected; exact Hr.
Qed.

(** C6: in the handler with the storage selector, when the bucket name is
    set to a non-empty string and the cloud client was constructed, every
    write goes to the cloud store under the object key and a success
    response carries https://storage.googleapis.com/{bucket}/{key};
    otherwise every write goes to the blob store and a success response
    carries a URL issued by the blob store.  (An empty bucket name is
    falsy and counts as unset.) *)
Theorem backend_selection :
  forall cfg req now write f d,
    validate req = inr (f, d) ->
    let key := object_key d now (name f) in
    (forall b, GCS_BUCKET_NAME cfg = Some b -> b <> [] -> storage_ok cfg = true ->
       Forall (writes_to GCS key) (fst (POST_fallback cfg req now write)) /\
       (forall url fn st, snd (POST_fallback cfg req now write) = JsonOk url fn st ->
          url = gcs_public_url b key /\ fn = key))
    /\ (~ (exists b, GCS_BUCKET_NAME cfg = Some b /\ b <> [] /\ storage_ok cfg = true) ->
       Forall (writes_to VercelBlob key) (fst (POST_fallback cfg req now write)) /\
       (forall url fn st, snd (POST_fallback cfg req now write) = JsonOk url fn st ->
          (exists j, write j = Saved url) /\ fn = key)).
Proof.
  intros cfg req now write f d Hv key. split.
  - intros b Hb Hn Hs.
    assert (Hg : use_gcs cfg = true) by (apply use_gcs_iff; eauto).
    assert (Ht : truthy b = true) by (destruct b; [contradiction|reflexivity]).
    split.
    + pose proof (POST_fallback_trace cfg req now write f d Hv) as Htr.
      rewrite Hg in Htr. exact Htr.
    + rewrite (POST_fallback_gcs_path cfg req now write f d Hv b Hb Ht Hs). fold key.
      destruct (retry_loop GCS key write initial_retries 0) as [tr [u|e|]];
        cbn [snd catch_upload_error]; intros url fn st H; inversion H; auto.
  - intros Hno.
    assert (Hg : use_gcs cfg = false).
    { destruct (use_gcs cfg) eqn:E; [|reflexivity].
      exfalso. apply Hno. apply use_gcs_iff. exact E. }
    split.
    + pose proof (POST_fallback_trace cfg req now write f d Hv) as Htr.
      rewrite Hg in Htr. exact Htr.
    + destruct (env_truthy (BLOB_READ_WRITE_TOKEN cfg)) eqn:Ht.
      * rewrite (POST_fallback_blob_path cfg req now write f d Hv Hg Ht). fold key.
        destruct (retry_loop VercelBlob key write initial_retries 0) as [tr res] eqn:Hr.
        destruct res as [u|e|]; cbn [snd catch_upload_error]; intros url fn st H;
          inversion H; subst.
        split; [|reflexivity]. eapply retry_loop_broke_saved. exact Hr.
      * rewrite (POST_fallback_no_token cfg req now write f d Hv Hg Ht).
        intros url fn st H. discriminate.
Qed.

(** C7: an absent directory field becomes "general"; a request passes
    validation only with a directory of the allow-list {courses, batches,
    general, products, products/banner, category-icons, logos}; and a
    request whose file passes the type and size checks is rejected with
    InvalidDirectory exactly when its directory is outside that list. *)
Theorem directory_default_and_allow_list :
  directory_value None = EntryStr (js "general") /\
  allowedDirectories = map js ["courses"; "batches"; "general"; "products";
                               "products/banner"; "category-icons"; "logos"]%string /\
  (forall req f d, validate req = inr (f, d) -> In d allowedDirectories) /\
  (forall req f,
     form_file req = Some (EntryFile f) ->
     includes allowedTypes (type f) = true -> size f <= maxSize ->
     (validate req = inl InvalidDirectory <->
        directory_allowed (directory_value (form_directory req)) = false) /\
     (form_directory req = None -> validate req = inr (f, js "general"))).
Proof.
  split; [reflexivity|]. split; [reflexivity|]. split.
  - intros req f d H. apply includes_In. apply validate_ok_inv in H. tauto.
  - intros req f Hf Ht Hs.
    assert (Hs' : (size f >? maxSize) = false)
      by (rewrite Z.gtb_ltb; apply Z.ltb_ge; lia).
    pose proof (validate_file_checks req f Hf) as Hv.
    rewrite Ht, Hs' in Hv. cbn [negb] in Hv. split.
    + rewrite Hv. destruct (directory_value (form_directory req)) as [ds|df].
      * cbn [directory_allowed].
        destruct (includes allowedDirectories ds); split; intros H; congruence.
      * cbn [directory_allowed]. split; reflexivity.
    + intros Hn. rewrite Hv, Hn. reflexivity.
Qed.

(** C8: sanitization is idempotent. *)
Theorem sanitize_idempotent : forall s, sanitize (sanitize s) = sanitize s.
Proof.
  intros s. pose proof (sanitize_units s) as Hu.
  set (t := sanitize s) in *. unfold sanitize at 1.
  unfold replace_whitespace. rewrite replace_ws_runs_id.
  2: { eapply Forall_impl; [|exact Hu]. apply sanitized_unit_not_whitespace. }
  unfold strip_special. rewrite forallb_filter_id.
  2: { apply forallb_forall. intros c Hc. apply sanitized_unit_kept.
       rewrite Forall_forall in Hu. auto. }
  unfold toLowerCase. rewrite <- (map_id t) at 2. apply map_ext_in.
  intros c Hc. apply sanitized_unit_lower. rewrite Forall_forall in Hu. auto.
Qed.

(** C9: a directory field present but empty is falsy and becomes
    "general": a request whose file passes the type and size checks is not
    rejected, and every write of either handler uses a key under
    "general/". *)
Theorem empty_directory_is_general :
  forall req f,
    form_file req = Some (EntryFile f) -> form_directory req = Some (EntryStr []) ->
    includes allowedTypes (type f) = true -> size f <= maxSize ->
    validate req = inr (f, js "general") /\
    (forall cfg now write,
       Forall (writes_to (if use_gcs cfg then GCS else VercelBlob)
                 (object_key (js "general") now (name f)))
              (fst (POST_fallback cfg req now write)) /\
       Forall (writes_to GCS (object_key (js "general") now (sanitize (name f))))
              (fst (POST_gcs cfg req now write))).
Proof.
  intros req f Hf Hd Ht Hs.
  assert (Hs' : (size f >? maxSize) = false)
    by (rewrite Z.gtb_ltb; apply Z.ltb_ge; lia).
  assert (Hv : validate req = inr (f, js "general")).
  { rewrite (validate_file_checks req f Hf), Ht, Hs', Hd. reflexivity. }
  split; [exact Hv|]. intros cfg now write. split.
  - apply POST_fallback_trace. exact Hv.
  - apply POST_gcs_trace. exact Hv.
Qed.

(** C10: the size limit is inclusive: for a file of an allowed type, the
    rejection TooLarge happens exactly when the size exceeds 15728640
    bytes; a file of exactly 15728640 bytes with an allowed directory
    passes validation. *)
Theorem size_limit_inclusive :
  forall req f,
    form_file req = Some (EntryFile f) -> includes allowedTypes (type f) = true ->
    (validate req = inl TooLarge <-> size f > 15728640) /\
    (size f = 15728640 -> directory_allowed (directory_value (form_directory req)) = true ->
       exists d, validate req = inr (f, d)).
Proof.
  intros req f Hf Ht.
  pose proof (validate_file_checks req f Hf) as Hv. rewrite Ht in Hv. cbn [negb] in Hv.
  split.
  - rewrite Hv. destruct (size f >? maxSize) eqn:Hs.
    + apply Z.gtb_lt in Hs. unfold maxSize in Hs. split; [intros _; lia|reflexivity].
    + rewrite Z.gtb_ltb in Hs. apply Z.ltb_ge in Hs. unfold maxSize in Hs.
      split; [|lia]. destruct (directory_value (form_directory req)) as [ds|df];
        cbv beta iota; [destruct (includes allowedDirectories ds)|]; discriminate.
  - intros Hsz Hd. rewrite Hv, Hsz.
    destruct (directory_value (form_directory req)) as [ds|df];
      cbn [directory_allowed] in Hd; [|discriminate].
    exists ds. rewrite Hd. reflexivity.
Qed.

(** ** Witnesses *)

Lemma retry_fails_twice_then_succeeds_witness :
  POST_fallback cfg_gcs req_photo 5 (failing_first 2 (js "u")) =
    ([EvWrite GCS (js "general/5-My Photo.png"); EvSleep 1000;
      EvWrite GCS (js "general/5-My Photo.png"); EvSleep 1000;
      EvWrite GCS (js "general/5-My Photo.png")],
     JsonOk (gcs_public_url (js "b") (js "general/5-My Photo.png"))
            (js "general/5-My Photo.png") (Some (js "gcs"))) /\
  POST_gcs cfg_gcs req_photo 5 (failing_first 0 (js "u")) =
    ([EvWrite GCS (js "general/5-my-photo.png")],
     JsonOk (gcs_public_url (js "b") (js "general/5-my-photo.png"))
            (js "general/5-my-photo.png") None).
Proof.
  split.
  - exact (proj1 (proj1 retry_fails_twice_then_succeeds cfg_gcs req_photo 5%N
      (failing_first 2 (js "u")) photo (js "general") timeout_error timeout_error (js "u")
      eq_refl eq_refl eq_refl eq_refl) (js "b") eq_refl eq_refl eq_refl).
  - exact (proj2 (proj2 (proj2 retry_fails_twice_then_succeeds cfg_gcs req_photo 5%N
      (failing_first 0 (js "u")) photo (js "general") 0%nat (js "u")
      eq_refl ltac:(lia) ltac:(intros j Hj; lia) eq_refl)) (js "b") eq_refl eq_refl).
Defined.

Lemma retry_all_fail_last_error_witness :
  POST_fallback cfg_blob req_photo 5 (failing_first 3 (js "u")) =
    ([EvWrite VercelBlob (js "general/5-My Photo.png"); EvSleep 1000;
      EvWrite VercelBlob (js "general/5-My Photo.png"); EvSleep 1000;
      EvWrite VercelBlob (js "general/5-My Photo.png")],
     JsonErr 500 (js "Failed to upload file") (Some (js "socket hang up"))).
Proof.
  exact (proj1 (proj2 (retry_all_fail_last_error cfg_blob req_photo 5
    (failing_first 3 (js "u")) photo (js "general") timeout_error timeout_error
    (js "socket hang up") eq_refl eq_refl eq_refl eq_refl)) eq_refl eq_refl).
Defined.

Lemma validation_failure_no_write_witness :
  exists r,
    validate (mkRequest (Some (EntryFile (mkFile (js "a.gif") (js "image/gif") 10))) None)
      = inl r /\ r = InvalidType /\
    POST_fallback cfg_gcs
      (mkRequest (Some (EntryFile (mkFile (js "a.gif") (js "image/gif") 10))) None) 0
      (failing_first 0 []) = ([], rejection_response r).
Proof.
  destruct (validation_failure_no_write cfg_gcs
    (mkRequest (Some (EntryFile (mkFile (js "a.gif") (js "image/gif") 10))) None) 0
    (failing_first 0 []) (mkFile (js "a.gif") (js "image/gif") 10) eq_refl
    (or_introl eq_refl)) as [r [Hv [Hc [_ [Hp _]]]]].
  exists r. split; [exact Hv|]. split; [|exact Hp].
  destruct Hc as [[Hr _]|[[_ Hs]|[_ Hd]]]; [exact Hr| |].
  - exfalso. vm_compute in Hs. discriminate.
  - exfalso. vm_compute in Hd. discriminate.
Defined.

Lemma validation_order_witness :
  first_violation_spec (mkRequest None (Some (EntryStr (js "nope")))) = Some MissingFile /\
  POST_gcs cfg_gcs (mkRequest None (Some (EntryStr (js "nope")))) 0 (failing_first 0 [])
    = ([], rejection_response MissingFile).
Proof.
  pose proof (validation_order (mkRequest None (Some (EntryStr (js "nope"))))) as [H1 H2].
  split; [exact H1|].
  exact (proj2 (H2 cfg_gcs 0%N (failing_first 0 []) MissingFile eq_refl)).
Defined.

Lemma backend_selection_witness :
  (exists j, failing_first 1 (js "blob-url") j = Saved (js "blob-url")) /\
  js "general/5-My Photo.png" = object_key (js "general") 5 (name photo).
Proof.
  exact (proj2 (proj2 (backend_selection cfg_blob req_photo 5
    (failing_first 1 (js "blob-url")) photo (js "general") eq_refl)
    (fun '(ex_intro _ b (conj Hb _)) => ltac:(discriminate Hb)))
    (js "blob-url") (js "general/5-My Photo.png") (Some (js "vercel-blob")) eq_refl).
Defined.

Lemma directory_default_and_allow_list_witness :
  validate req_photo = inr (photo, js "general").
Proof.
  destruct directory_default_and_allow_list as [_ [_ [_ H]]].
  exact (proj2 (H req_photo photo eq_refl eq_refl ltac:(unfold maxSize; cbn; lia)) eq_refl).
Defined.

Lemma empty_directory_is_general_witness :
  validate (mkRequest (Some (EntryFile photo)) (Some (EntryStr []))) = inr (photo, js "general").
Proof.
  exact (proj1 (empty_directory_is_general
    (mkRequest (Some (EntryFile photo)) (Some (EntryStr []))) photo
    eq_refl eq_refl eq_refl ltac:(unfold maxSize; cbn; lia))).
Defined.

Lemma size_limit_inclusive_witness :
  exists d,
    validate (mkRequest (Some (EntryFile (mkFile (js "big.webp") (js "image/webp") 15728640)))
                        (Some (EntryStr (js "products/banner"))))
    = inr (mkFile (js "big.webp") (js "image/webp") 15728640, d).
Proof.
  exact (proj2 (size_limit_inclusive
    (mkRequest (Some (EntryFile (mkFile (js "big.webp") (js "image/webp") 15728640)))
               (Some (EntryStr (js "products/banner"))))
    (mkFile (js "big.webp") (js "image/webp") 15728640) eq_refl eq_refl) eq_refl eq_refl).
Defined.

(** * Add-coupon page: properties *)

Example uniqStrings_ex :
  uniqStrings [js "b"; []; js "a"; js "b"] = [js "b"; js "a"].
Proof. reflexivity. Qed.

Example trim_ex : trim [32; 160; 97; 32; 98; 10] = [97; 32; 98].
Proof. reflexivity. Qed.

Lemma includes_false_not_In : forall xs x, includes xs x = false <-> ~ In x xs.
Proof.
  intros xs x. rewrite <- includes_In. destruct (includes xs x); split; congruence.
Qed.

Lemma set_add_fold_In :
  forall xs acc x, In x (fold_left set_add xs acc) <-> In x acc \/ In x xs.
Proof.
  induction xs as [|y xs IH]; intros acc x; simpl; [tauto|].
  rewrite IH. unfold set_add. destruct (includes acc y) eqn:E.
  - apply includes_In in E. split; [tauto|]. intros [H|[<-|H]]; auto.
  - rewrite in_app_iff. simpl. tauto.
Qed.

Lemma set_add_fold_NoDup :
  forall xs acc, NoDup acc -> NoDup (fold_left set_add xs acc).
Proof.
  induction xs as [|y xs IH]; intros acc H; simpl; [exact H|].
  apply IH. unfold set_add. destruct (includes acc y) eqn:E; [exact H|].
  apply includes_false_not_In in E.
  apply NoDup_app; [exact H|repeat constructor; auto|].
  intros a Ha [<-|[]]. contradiction.
Qed.

Lemma set_add_fold_id :
  forall xs acc, NoDup (acc ++ xs) -> fold_left set_add xs acc = acc ++ xs.
Proof.
  induction xs as [|y xs IH]; intros acc H; simpl; [rewrite app_nil_r; reflexivity|].
  unfold set_add at 2.
  assert (Hy : ~ In y acc).
  { intros Hin. apply (NoDup_remove_2 acc xs y H). apply in_or_app. left. exact Hin. }
  apply includes_false_not_In in Hy. rewrite Hy.
  rewrite IH; [rewrite <- app_assoc; reflexivity|]. rewrite <- app_assoc. exact H.
Qed.

Lemma truthy_iff : forall s, truthy s = true <-> s <> [].
Proof. intros [|c s]; simpl; split; congruence. Qed.

Lemma filter_truthy_id : forall xs, ~ In [] xs -> filter truthy xs = xs.
Proof.
  intros xs H. apply forallb_filter_id, forallb_forall.
  intros x Hx. apply truthy_iff. intros ->. contradiction.
Qed.

Lemma filter_neq_In :
  forall sel id y,
    In y (filter (fun x => negb (jsstring_eqb x id)) sel) <-> In y sel /\ y <> id.
Proof.
  intros sel id y. rewrite filter_In. destruct (jsstring_eqb y id) eqn:E; simpl.
  - apply jsstring_eqb_eq in E. split; [intros [_ H]; discriminate|intros [_ H]; contradiction].
  - split; intros [H1 H2]; split; auto.
    + intros ->. rewrite (proj2 (jsstring_eqb_eq id id) eq_refl) in E. discriminate.
Qed.

(** X1: [uniqStrings] returns each non-empty input string once, and nothing
    else: its result has no duplicates and contains exactly the non-empty
    strings of its input. *)
Theorem uniqStrings_spec :
  forall values,
    NoDup (uniqStrings values) /\
    (forall x, In x (uniqStrings values) <-> In x values /\ x <> []).
Proof.
  intros values. split.
  - apply set_add_fold_NoDup. constructor.
  - intros x. unfold uniqStrings, new_Set. rewrite set_add_fold_In, filter_In, truthy_iff.
    simpl. tauto.
Qed.

Lemma uniqStrings_id :
  forall values, NoDup values -> ~ In [] values -> uniqStrings values = values.
Proof.
  intros values Hn He. unfold uniqStrings, new_Set. rewrite filter_truthy_id by exact He.
  apply (set_add_fold_id values []). exact Hn.
Qed.

(** X2: [uniqStrings] keeps a list that is already duplicate-free and
    without empty strings unchanged, order included; and it is idempotent
    on every input. *)
Theorem uniqStrings_canonical :
  (forall values, NoDup values -> ~ In [] values -> uniqStrings values = values) /\
  (forall values, uniqStrings (uniqStrings values) = uniqStrings values).
Proof.
  split; [exact uniqStrings_id|]. intros values.
  destruct (uniqStrings_spec values) as [Hn Hi].
  apply uniqStrings_id; [exact Hn|]. intros H. apply Hi in H as [_ H]. apply H. reflexivity.
Qed.

Lemma toggle_add :
  forall sel id, NoDup sel -> ~ In [] sel -> id <> [] -> ~ In id sel ->
    toggle sel id = sel ++ [id].
Proof.
  intros sel id Hn He Hid Hnot. unfold toggle.
  rewrite (proj2 (includes_false_not_In sel id) Hnot).
  apply uniqStrings_id.
  - apply NoDup_app; [exact Hn|repeat constructor; auto|].
    intros a Ha [<-|[]]. contradiction.
  - rewrite in_app_iff. intros [H|[H|[]]]; [contradiction|]. apply Hid. congruence.
Qed.

Lemma toggle_remove :
  forall sel id, In id sel ->
    toggle sel id = filter (fun x => negb (jsstring_eqb x id)) sel.
Proof.
  intros sel id H. unfold toggle. rewrite (proj2 (includes_In sel id) H). reflexivity.
Qed.

Lemma filter_neq_id :
  forall sel id, ~ In id sel -> filter (fun x => negb (jsstring_eqb x id)) sel = sel.
Proof.
  intros sel id H. apply forallb_filter_id, forallb_forall. intros x Hx.
  destruct (jsstring_eqb x id) eqn:E; [|reflexivity].
  apply jsstring_eqb_eq in E. subst. contradiction.
Qed.

(** X3: toggling keeps a selection valid: from a duplicate-free selection
    without empty ids, [toggle] yields again a duplicate-free selection
    without empty ids, whatever id is toggled. *)
Theorem toggle_preserves_valid :
  forall sel id, NoDup sel -> ~ In [] sel ->
    NoDup (toggle sel id) /\ ~ In [] (toggle sel id).
Proof.
  intros sel id Hn He. unfold toggle. destruct (includes sel id).
  - split; [apply NoDup_filter; exact Hn|]. rewrite filter_neq_In. tauto.
  - destruct (uniqStrings_spec (sel ++ [id])) as [H1 H2]. split; [exact H1|].
    rewrite H2. intros [_ H]. apply H. reflexivity.
Qed.

(** X4: on a valid selection, toggling a non-empty id flips its membership
    and leaves the membership of every other id unchanged. *)
Theorem toggle_membership :
  forall sel id, NoDup sel -> ~ In [] sel -> id <> [] ->
    (In id (toggle sel id) <-> ~ In id sel) /\
    (forall y, y <> id -> (In y (toggle sel id) <-> In y sel)).
Proof.
  intros sel id Hn He Hid.
  destruct (in_dec (list_eq_dec Z.eq_dec) id sel) as [Hin|Hnot].
  - rewrite (toggle_remove sel id Hin). split.
    + rewrite filter_neq_In. tauto.
    + intros y Hy. rewrite filter_neq_In. tauto.
  - rewrite (toggle_add sel id Hn He Hid Hnot). split.
    + rewrite in_app_iff. simpl. tauto.
    + intros y Hy. rewrite in_app_iff. simpl. split; [|tauto].
      intros [H|[H|[]]]; [exact H|]. congruence.
Qed.

(** X5: toggling the empty id never selects it, and on a valid selection it
    changes nothing. *)
Theorem toggle_empty_id :
  forall sel, ~ In [] (toggle sel []) /\
    (NoDup sel -> ~ In [] sel -> toggle sel [] = sel).
Proof.
  intros sel. split.
  - unfold toggle. destruct (includes sel []).
    + rewrite filter_neq_In. tauto.
    + rewrite (proj2 (uniqStrings_spec _) []). intros [_ H]. apply H. reflexivity.
  - intros Hn He. unfold toggle.
    rewrite (proj2 (includes_false_not_In sel []) He).
    unfold uniqStrings, new_Set. rewrite filter_app. simpl.
    rewrite app_nil_r, filter_truthy_id by exact He.
    apply (set_add_fold_id sel []). exact Hn.
Qed.

(** X6: on a valid selection, selecting a new non-empty id appends it at
    the end and toggling it again restores the selection; toggling a
    selected id twice moves it to the end. *)
Theorem toggle_twice :
  forall sel id, NoDup sel -> ~ In [] sel -> id <> [] ->
    (~ In id sel -> toggle sel id = sel ++ [id] /\ toggle (toggle sel id) id = sel) /\
    (In id sel -> toggle (toggle sel id) id =
                  filter (fun x => negb (jsstring_eqb x id)) sel ++ [id]).
Proof.
  intros sel id Hn He Hid. split.
  - intros Hnot. rewrite (toggle_add sel id Hn He Hid Hnot). split; [reflexivity|].
    rewrite toggle_remove by (apply in_or_app; right; left; reflexivity).
    rewrite filter_app, filter_neq_id by exact Hnot. simpl.
    rewrite (proj2 (jsstring_eqb_eq id id) eq_refl). simpl. apply app_nil_r.
  - intros Hin. rewrite (toggle_remove sel id Hin). apply toggle_add.
    + apply NoDup_filter. exact Hn.
    + rewrite filter_neq_In. tauto.
    + exact Hid.
    + rewrite filter_neq_In. tauto.
Qed.

Lemma trim_start_ws_app :
  forall w s, Forall (fun c => is_js_whitespace c = true) w -> trim_start (w ++ s) = trim_start s.
Proof.
  induction w as [|c w IH]; intros s H; [reflexivity|].
  inversion H as [|? ? Hc Hw]; subst. simpl. rewrite Hc. apply IH. exact Hw.
Qed.

Lemma trim_start_app :
  forall q s, trim_start (q ++ s) =
    match trim_start q with [] => trim_start s | t => t ++ s end.
Proof.
  induction q as [|c q IH]; intros s; [reflexivity|].
  simpl. destruct (is_js_whitespace c); [apply IH|reflexivity].
Qed.

Lemma trim_padded :
  forall w1 q w2,
    Forall (fun c => is_js_whitespace c = true) w1 ->
    Forall (fun c => is_js_whitespace c = true) w2 ->
    trim (w1 ++ q ++ w2) = trim q.
Proof.
  intros w1 q w2 H1 H2. unfold trim.
  rewrite trim_start_ws_app by exact H1. rewrite trim_start_app.
  destruct (trim_start q) as [|c t] eqn:Hq.
  - rewrite <- (app_nil_r w2), trim_start_ws_app by exact H2. reflexivity.
  - rewrite rev_app_distr, trim_start_ws_app; [reflexivity|].
    apply Forall_rev. exact H2.
Qed.

Lemma trim_blank :
  forall q, Forall (fun c => is_js_whitespace c = true) q -> trim q = [].
Proof.
  intros q H. unfold trim. rewrite <- (app_nil_r q), trim_start_ws_app by exact H.
  reflexivity.
Qed.

(** X7: the picker renders at most 200 rows, the first 200 matches in
    order; the "Showing first 200 results" note appears exactly when some
    matches are not rendered, and "No matches" exactly when nothing
    matches. *)
Theorem render_picker_cap :
  forall lower items sel q,
    let v := render_picker lower items sel q in
    (List.length (rows v) <= 200)%nat /\
    map fst (rows v) = firstn 200 (filtered lower items q) /\
    (more_note v = true <-> (List.length (rows v) < List.length (filtered lower items q))%nat) /\
    (no_matches v = true <-> filtered lower items q = []).
Proof.
  intros lower items sel q v. unfold v, render_picker. cbn [rows more_note no_matches].
  destruct (filtered lower items q) as [|x f] eqn:Hf.
  - simpl. repeat split; try lia; try discriminate; reflexivity.
  - cbn [List.length Nat.eqb]. rewrite map_map, length_map, length_firstn. simpl map.
    rewrite map_id. repeat split.
    + simpl List.length. lia.
    + intros H. apply Nat.ltb_lt in H. simpl List.length. lia.
    + intros H. apply Nat.ltb_lt. simpl List.length in H. lia.
    + discriminate.
    + discriminate.
Qed.

(** X8: whitespace (spaces, tabs, newlines, no-break spaces, ...) typed
    before or after the search text does not change which items the picker
    lists. *)
Theorem filtered_ignores_padding :
  forall lower items q w1 w2,
    Forall (fun c => is_js_whitespace c = true) w1 ->
    Forall (fun c => is_js_whitespace c = true) w2 ->
    filtered lower items (w1 ++ q ++ w2) = filtered lower items q.
Proof.
  intros lower items q w1 w2 H1 H2. unfold filtered. rewrite trim_padded; auto.
Qed.

(** X9: a search text made only of whitespace (or empty) lists every item,
    in order, for a case mapping that maps the empty string to itself. *)
Theorem filtered_blank_query :
  forall lower items q,
    lower [] = [] -> Forall (fun c => is_js_whitespace c = true) q ->
    filtered lower items q = items.
Proof.
  intros lower items q Hl Hq. unfold filtered. rewrite trim_blank, Hl by exact Hq.
  reflexivity.
Qed.

Example formatNumber_ex :
  map formatNumber [js "12.50"; js " 7 "; js "1e308"; js "1e309"; js "-Infinity";
                    js "0x1F"; js "-0x1F"; js "."; js "1."; js ".5e-3"; js "abc"; js "  "]
  = [js "12.50"; js " 7 "; js "1e308"; []; []; js "0x1F"; []; []; js "1."; js ".5e-3"; [];
     js "  "].
Proof. vm_compute. reflexivity. Qed.

Lemma formatNumber_cases :
  forall v, formatNumber v = v /\ jsstring_eqb v [] = false /\
              numeral_isFinite (StringToNumber v) = true
            \/ formatNumber v = [].
Proof.
  intros v. unfold formatNumber.
  destruct (jsstring_eqb v []) eqn:E; [right; reflexivity|].
  destruct (numeral_isFinite (StringToNumber v)) eqn:F; simpl; [left|right]; auto.
Qed.

(** X10: [formatNumber] either returns its input unchanged or clears it to
    the empty string, and applying it to its own result changes nothing. *)
Theorem formatNumber_keep_or_clear :
  forall v, (formatNumber v = v \/ formatNumber v = []) /\
            formatNumber (formatNumber v) = formatNumber v.
Proof.
  intros v. destruct (formatNumber_cases v) as [[H [E F]]|H]; rewrite H; split; auto.
Qed.

(** X11: a non-empty text made only of whitespace is kept as it is:
    [Number] reads it as 0, which is finite. *)
Theorem formatNumber_keeps_blank :
  forall w, w <> [] -> Forall (fun c => is_js_whitespace c = true) w -> formatNumber w = w.
Proof.
  intros w Hne Hw. unfold formatNumber, StringToNumber.
  destruct (jsstring_eqb w []) eqn:E.
  - apply jsstring_eqb_eq in E. contradiction.
  - rewrite trim_blank by exact Hw. reflexivity.
Qed.

Lemma trim_start_id :
  forall s, Forall (fun c => is_js_whitespace c = false) s -> trim_start s = s.
Proof.
  intros [|c s] H; [reflexivity|]. inversion H; subst. simpl. rewrite H2. reflexivity.
Qed.

Lemma trim_id :
  forall s, Forall (fun c => is_js_whitespace c = false) s -> trim s = s.
Proof.
  intros s H. unfold trim. rewrite (trim_start_id s H).
  rewrite (trim_start_id (rev s)) by (apply Forall_rev; exact H). apply rev_involutive.
Qed.

Lemma digit_value_decimal :
  forall c, 48 <= c <= 57 -> digit_value 10 c = Some (c - 48).
Proof.
  intros c Hc. unfold digit_value.
  replace ((48 <=? c) && (c <=? 57)) with true
    by (symmetry; apply andb_true_iff; split; apply Z.leb_le; lia).
  replace (c - 48 <? 10) with true by (symmetry; apply Z.ltb_lt; lia). reflexivity.
Qed.

Lemma span_digits_decimal :
  forall ds r,
    Forall (fun c => 48 <= c <= 57) ds ->
    match r with [] => True | c :: _ => digit_value 10 c = None end ->
    span_digits 10 (ds ++ r) = (map (fun c => c - 48) ds, r).
Proof.
  induction ds as [|c ds IH]; intros r Hds Hr.
  - destruct r as [|c r]; simpl; [reflexivity|]. rewrite Hr. reflexivity.
  - inversion Hds; subst. simpl. rewrite digit_value_decimal by assumption.
    rewrite IH by assumption. reflexivity.
Qed.

Lemma digits_value_bound :
  forall ds acc, 0 <= acc -> Forall (fun d => 0 <= d < 10) ds ->
    0 <= fold_left (fun a d => a * 10 + d) ds acc < (acc + 1) * 10 ^ Z.of_nat (List.length ds).
Proof.
  induction ds as [|d ds IH]; intros acc Ha Hds.
  - simpl. lia.
  - inversion Hds; subst. simpl fold_left.
    specialize (IH (acc * 10 + d) ltac:(lia) H2).
    cbn [List.length]. rewrite Nat2Z.inj_succ, Z.pow_succ_r by lia.
    assert (0 <= 10 ^ Z.of_nat (List.length ds)) by (apply Z.pow_nonneg; lia). nia.
Qed.

Lemma decimal_digits_value :
  forall ds, Forall (fun c => 48 <= c <= 57) ds ->
    0 <= digits_value 10 (map (fun c => c - 48) ds) < 10 ^ Z.of_nat (List.length ds).
Proof.
  intros ds H. unfold digits_value.
  pose proof (digits_value_bound (map (fun c => c - 48) ds) 0 ltac:(lia)) as B.
  rewrite length_map in B. replace ((0 + 1) * _) with (10 ^ Z.of_nat (List.length ds)) in B by lia.
  apply B. apply Forall_map. eapply Forall_impl; [|exact H]. simpl. lia.
Qed.

Lemma parse_str_numeric_decimal :
  forall s, match s with c0 :: c1 :: _ => non_decimal_base c1 = None | _ => True end ->
    parse_str_numeric s = parse_str_decimal s.
Proof.
  intros [|c0 [|c1 t]] H; simpl; try reflexivity.
  rewrite H. destruct (c0 =? 48); reflexivity.
Qed.

Lemma overflow_bound_gt : 10 ^ 308 < overflow_bound.
Proof. apply Z.ltb_lt. vm_compute. reflexivity. Qed.

(** X12: a decimal numeral with at most 308 integer digits, optionally
    followed by a point and any number of fraction digits, and padded with
    any whitespace, is kept verbatim (its value is below the largest finite
    double). *)
Theorem formatNumber_keeps_decimal :
  forall w1 ds frac w2,
    Forall (fun c => is_js_whitespace c = true) w1 ->
    Forall (fun c => is_js_whitespace c = true) w2 ->
    ds <> [] -> (List.length ds <= 308)%nat ->
    Forall (fun c => 48 <= c <= 57) ds ->
    (frac = [] \/ exists fs, frac = 46 :: fs /\ Forall (fun c => 48 <= c <= 57) fs) ->
    formatNumber (w1 ++ ds ++ frac ++ w2) = w1 ++ ds ++ frac ++ w2.
Proof.
  intros w1 ds frac w2 H1 H2 Hne Hlen Hds Hfrac.
  assert (Hdigit_ws : forall c, 48 <= c <= 57 -> is_js_whitespace c = false).
  { intros c Hc. destruct (is_js_whitespace c) eqn:E; [|reflexivity].
    unfold is_js_whitespace in E. zbool. lia. }
  assert (Hbody : Forall (fun c => is_js_whitespace c = false) (ds ++ frac)).
  { apply Forall_app. split; [eapply Forall_impl; [exact Hdigit_ws|exact Hds]|].
    destruct Hfrac as [->|[fs [-> Hfs]]]; [constructor|].
    constructor; [reflexivity|]. eapply Forall_impl; [exact Hdigit_ws|exact Hfs]. }
  destruct ds as [|d0 ds']; [contradiction|].
  unfold formatNumber, StringToNumber.
  destruct (jsstring_eqb (w1 ++ (d0 :: ds') ++ frac ++ w2) []) eqn:E.
  { apply jsstring_eqb_eq, app_eq_nil in E as [_ E]. discriminate. }
  rewrite (app_assoc (d0 :: ds') frac w2), trim_padded, trim_id by assumption.
  cbn [app truthy negb].
  rewrite parse_str_numeric_decimal.
  2:{ inversion Hds; subst. destruct ds' as [|d1 ds'']; cbn [app].
      - destruct Hfrac as [->|[fs [-> _]]]; [exact I|reflexivity].
      - inversion H4; subst. unfold non_decimal_base.
        repeat match goal with |- context [?a =? ?b] =>
          replace (a =? b) with false by (symmetry; apply Z.eqb_neq; lia) end.
        reflexivity. }
  inversion Hds as [|? ? Hd0 Hds'']; subst.
  unfold parse_str_decimal. cbn [app].
  replace (d0 =? 43) with false by (symmetry; apply Z.eqb_neq; lia).
  replace (d0 =? 45) with false by (symmetry; apply Z.eqb_neq; lia).
  unfold parse_unsigned_decimal.
  destruct (jsstring_eqb (d0 :: ds' ++ frac) (js "Infinity")) eqn:EI.
  { apply jsstring_eqb_eq in EI. cbv in EI. injection EI as EI. lia. }
  destruct Hfrac as [->|[fs [-> Hfs]]].
  - change (d0 :: ds' ++ []) with ((d0 :: ds') ++ []).
    rewrite span_digits_decimal by (auto; exact I).
    cbn [map]. cbv zeta. cbn [parse_exponent]. rewrite app_nil_r.
    pose proof (decimal_digits_value (d0 :: ds') Hds) as B.
    cbn [map] in B. unfold numeral_isFinite. simpl (0 - _). simpl (0 <=? 0).
    rewrite Z.abs_eq by lia. rewrite Z.mul_1_r.
    replace (_ <? overflow_bound) with true; [reflexivity|].
    symmetry. apply Z.ltb_lt. pose proof overflow_bound_gt.
    assert (10 ^ Z.of_nat (List.length (d0 :: ds')) <= 10 ^ 308)
      by (apply Z.pow_le_mono_r; lia). lia.
  - change (d0 :: ds' ++ 46 :: fs) with ((d0 :: ds') ++ 46 :: fs).
    rewrite span_digits_decimal by (auto; reflexivity).
    cbn [map]. cbv zeta. simpl (46 =? 46). cbv iota.
    rewrite <- (app_nil_r fs), span_digits_decimal by (auto; exact I).
    cbv iota. cbn [parse_exponent]. rewrite app_nil_r.
    rewrite length_map.
    replace ((d0 - 48 :: map (fun c => c - 48) ds') ++ map (fun c => c - 48) fs)
      with (map (fun c => c - 48) ((d0 :: ds') ++ fs)) by (rewrite map_app; reflexivity).
    assert (Hall : Forall (fun c => 48 <= c <= 57) ((d0 :: ds') ++ fs))
      by (apply Forall_app; auto).
    pose proof (decimal_digits_value _ Hall) as B. rewrite length_app in B.
    set (m := digits_value 10 (map (fun c => c - 48) ((d0 :: ds') ++ fs))) in *.
    set (k := List.length fs) in *. set (n := List.length (d0 :: ds')) in *.
    assert (Hn : 10 ^ Z.of_nat n <= 10 ^ 308) by (apply Z.pow_le_mono_r; lia).
    pose proof overflow_bound_gt.
    assert (Hk : 0 < 10 ^ Z.of_nat k) by (apply Z.pow_pos_nonneg; lia).
    rewrite Nat2Z.inj_add, Z.pow_add_r in B by lia.
    assert (F : numeral_isFinite (NumExact m (0 - Z.of_nat k)) = true).
    { unfold numeral_isFinite. rewrite Z.abs_eq by lia.
      destruct (Nat.eq_dec k 0) as [K0|K0].
      - replace (0 - Z.of_nat k) with 0 by lia.
        rewrite Z.leb_refl, Z.pow_0_r, Z.mul_1_r. apply Z.ltb_lt.
        rewrite K0 in B. change (10 ^ Z.of_nat 0) with 1 in B. lia.
      - replace (0 <=? 0 - Z.of_nat k) with false by (symmetry; apply Z.leb_gt; lia).
        replace (- (0 - Z.of_nat k)) with (Z.of_nat k) by lia.
        apply Z.ltb_lt. nia. }
    rewrite F. reflexivity.
Qed.

Ltac zbool_full :=
  repeat (rewrite ?Bool.orb_true_iff, ?Bool.andb_true_iff, ?Bool.orb_false_iff,
            ?Bool.andb_false_iff, ?Z.leb_le, ?Z.leb_gt, ?Z.ltb_lt, ?Z.ltb_ge,
            ?Z.eqb_eq, ?Z.eqb_neq in *).

Lemma numeric_char_intro :
  forall c, (48 <= c <= 102 /\ (c <= 57 \/ 97 <= c \/ 65 <= c <= 70))
            \/ c = 120 \/ c = 88 \/ c = 111 \/ c = 79 \/ c = 46 \/ c = 43 \/ c = 45 ->
    numeric_literal_char c = true.
Proof. intros c Hc. unfold numeric_literal_char. zbool_full. lia. Qed.

Lemma digit_value_char :
  forall base c d, base <= 16 -> digit_value base c = Some d -> numeric_literal_char c = true.
Proof.
  intros base c d Hb H. unfold digit_value in H. apply numeric_char_intro.
  destruct ((48 <=? c) && (c <=? 57)) eqn:E1;
    [|destruct ((97 <=? c) && (c <=? 122)) eqn:E2;
      [|destruct ((65 <=? c) && (c <=? 90)) eqn:E3]];
    match type of H with
    | (if ?t then _ else _) = _ => destruct t eqn:Et; [|discriminate H]
    end; zbool_full; lia.
Qed.

Lemma span_digits_chars :
  forall base s ds r, base <= 16 -> span_digits base s = (ds, r) ->
    exists pre, s = pre ++ r /\ Forall (fun c => numeric_literal_char c = true) pre.
Proof.
  intros base s. induction s as [|c s IH]; intros ds r Hb H.
  - simpl in H. injection H as <- <-. exists []. auto.
  - simpl in H. destruct (digit_value base c) as [d|] eqn:Ed.
    + destruct (span_digits base s) as [ds' r'] eqn:Es. injection H as <- <-.
      destruct (IH ds' r' Hb eq_refl) as [pre [-> Hpre]].
      exists (c :: pre). split; [reflexivity|]. constructor; [|exact Hpre].
      eapply digit_value_char; eauto.
    + injection H as <- <-. exists []. auto.
Qed.

Lemma parse_exponent_chars :
  forall s x, parse_exponent s = Some x -> Forall (fun c => numeric_literal_char c = true) s.
Proof.
  intros [|c t] x H; [constructor|]. unfold parse_exponent in H.
  destruct ((c =? 101) || (c =? 69)) eqn:Ec; [|discriminate H].
  assert (Hc : numeric_literal_char c = true) by (apply numeric_char_intro; zbool_full; lia).
  assert (Hspan : forall r, match span_digits 10 r with
                            | (d :: ds, []) => Some (1 * digits_value 10 (d :: ds))
                            | _ => None end = Some x \/
                          match span_digits 10 r with
                            | (d :: ds, []) => Some (-1 * digits_value 10 (d :: ds))
                            | _ => None end = Some x ->
                   Forall (fun c => numeric_literal_char c = true) r).
  { intros r Hr. destruct (span_digits 10 r) as [ds rest] eqn:Es.
    destruct (span_digits_chars 10 r ds rest ltac:(lia) Es) as [pre [-> Hpre]].
    destruct ds; destruct rest; destruct Hr as [Hr|Hr]; try discriminate Hr;
      rewrite app_nil_r; exact Hpre. }
  constructor; [exact Hc|].
  destruct t as [|c' r].
  - apply (Hspan []). left. exact H.
  - destruct (c' =? 43) eqn:E43; [|destruct (c' =? 45) eqn:E45].
    + constructor; [apply numeric_char_intro; zbool_full; lia|]. apply Hspan. left. exact H.
    + constructor; [apply numeric_char_intro; zbool_full; lia|]. apply Hspan. right. exact H.
    + apply (Hspan (c' :: r)). left. exact H.
Qed.

Lemma parse_unsigned_decimal_chars :
  forall s m e, parse_unsigned_decimal s = NumExact m e ->
    Forall (fun c => numeric_literal_char c = true) s.
Proof.
  intros s m e H. unfold parse_unsigned_decimal in H.
  destruct (jsstring_eqb s (js "Infinity")); [discriminate H|].
  destruct (span_digits 10 s) as [int_ds r1] eqn:S1.
  destruct (span_digits_chars 10 s int_ds r1 ltac:(lia) S1) as [pre1 [-> Hpre1]].
  apply Forall_app. split; [exact Hpre1|].
  assert (Hexp : forall r2 (frac_ds : list Z),
             match int_ds, frac_ds with
             | [], [] => NumNaN
             | _, _ =>
                 match parse_exponent r2 with
                 | Some ex => NumExact (digits_value 10 (int_ds ++ frac_ds))
                                       (ex - Z.of_nat (List.length frac_ds))
                 | None => NumNaN
                 end
             end = NumExact m e ->
             Forall (fun c => numeric_literal_char c = true) r2).
  { intros r2 frac_ds Hr. destruct (parse_exponent r2) as [ex|] eqn:PE.
    - eapply parse_exponent_chars. exact PE.
    - destruct int_ds; destruct frac_ds; discriminate Hr. }
  destruct r1 as [|c r]; [constructor|].
  destruct (c =? 46) eqn:Ec.
  - destruct (span_digits 10 r) as [frac_ds r2] eqn:S2.
    destruct (span_digits_chars 10 r frac_ds r2 ltac:(lia) S2) as [pre2 [-> Hpre2]].
    constructor; [apply numeric_char_intro; zbool_full; lia|].
    apply Forall_app. split; [exact Hpre2|]. eapply Hexp. exact H.
  - eapply Hexp. exact H.
Qed.

Lemma parse_str_decimal_chars :
  forall s m e, parse_str_decimal s = NumExact m e ->
    Forall (fun c => numeric_literal_char c = true) s.
Proof.
  intros [|c t] m e H; [discriminate H|]. unfold parse_str_decimal in H.
  destruct (c =? 43) eqn:E43; [|destruct (c =? 45) eqn:E45].
  - constructor; [apply numeric_char_intro; zbool_full; lia|].
    eapply parse_unsigned_decimal_chars. exact H.
  - constructor; [apply numeric_char_intro; zbool_full; lia|].
    destruct (parse_unsigned_decimal t) eqn:P; try discriminate H.
    eapply parse_unsigned_decimal_chars. exact P.
  - eapply parse_unsigned_decimal_chars. exact H.
Qed.

Lemma parse_str_numeric_chars :
  forall s m e, parse_str_numeric s = NumExact m e ->
    Forall (fun c => numeric_literal_char c = true) s.
Proof.
  intros s m e H.
  destruct s as [|c0 [|c1 t]]; try (eapply parse_str_decimal_chars; exact H).
  unfold parse_str_numeric in H.
  destruct (c0 =? 48) eqn:E0; [|eapply parse_str_decimal_chars; exact H].
  destruct (non_decimal_base c1) as [base|] eqn:Eb; [|eapply parse_str_decimal_chars; exact H].
  assert (Hc1 : numeric_literal_char c1 = true /\ base <= 16).
  { unfold non_decimal_base in Eb.
    destruct ((c1 =? 98) || (c1 =? 66)) eqn:B2;
      [|destruct ((c1 =? 111) || (c1 =? 79)) eqn:B8;
        [|destruct ((c1 =? 120) || (c1 =? 88)) eqn:B16; [|discriminate Eb]]];
      injection Eb as <-; split; try lia; apply numeric_char_intro; zbool_full; lia. }
  destruct Hc1 as [Hc1 Hb].
  destruct (span_digits base t) as [ds r] eqn:S.
  destruct (span_digits_chars base t ds r Hb S) as [pre [-> Hpre]].
  destruct ds; [discriminate H|]. destruct r; [|discriminate H].
  constructor; [apply numeric_char_intro; zbool_full; lia|].
  constructor; [exact Hc1|]. rewrite app_nil_r. exact Hpre.
Qed.

Lemma trim_start_keeps :
  forall s c, In c s -> is_js_whitespace c = false -> In c (trim_start s).
Proof.
  induction s as [|x s IH]; intros c Hin Hc; [destruct Hin|].
  simpl. destruct (is_js_whitespace x) eqn:Ex.
  - destruct Hin as [->|Hin]; [congruence|]. apply IH; assumption.
  - exact Hin.
Qed.

Lemma trim_keeps :
  forall s c, In c s -> is_js_whitespace c = false -> In c (trim s).
Proof.
  intros s c Hin Hc. unfold trim. apply in_rev. rewrite rev_involutive.
  apply trim_start_keeps; [apply in_rev; rewrite rev_involutive|]; auto.
  apply trim_start_keeps; auto.
Qed.

(** X13: a value containing a code unit that is neither whitespace nor
    one of the characters a finite numeric literal can contain (digits,
    a-f, A-F, x, X, o, O, '.', '+', '-') is cleared: [Number] reads it as
    NaN or an infinity. *)
Theorem formatNumber_clears_foreign_char :
  forall v c, In c v -> is_js_whitespace c = false -> numeric_literal_char c = false ->
    formatNumber v = [].
Proof.
  intros v c Hin Hws Hnum.
  destruct (formatNumber_cases v) as [[_ [_ F]]|H]; [exfalso|exact H].
  pose proof (trim_keeps v c Hin Hws) as Ht.
  unfold StringToNumber in F. destruct (trim v) as [|x t] eqn:T; [destruct Ht|].
  cbn [truthy negb] in F.
  destruct (parse_str_numeric (x :: t)) as [| |m e] eqn:P; try discriminate F.
  apply parse_str_numeric_chars in P. rewrite Forall_forall in P.
  rewrite (P c Ht) in Hnum. discriminate Hnum.
Qed.

Lemma overflow_bound_lt : overflow_bound < 10 ^ 309.
Proof. apply Z.ltb_lt. vm_compute. reflexivity. Qed.

Lemma big_magnitude_overflows :
  forall m n k x, 0 <= n -> 0 <= k -> 309 <= x -> 10 ^ (n + k) <= m ->
  (if 0 <=? x - k then Z.abs m * 10 ^ (x - k) <? overflow_bound
   else Z.abs m <? overflow_bound * 10 ^ (- (x - k))) = false.
Proof.
  intros m n k x Hn Hk Hx Hm.
  assert (Hpos : 0 < 10 ^ (n + k)) by (apply Z.pow_pos_nonneg; lia).
  assert (H309 : 10 ^ 309 <= 10 ^ (n + x)) by (apply Z.pow_le_mono_r; lia).
  pose proof overflow_bound_lt as HB.
  rewrite Z.abs_eq by lia.
  destruct (0 <=? x - k) eqn:Ee.
  - apply Z.leb_le in Ee. apply Z.ltb_ge.
    assert (Hp : 10 ^ (n + k) * 10 ^ (x - k) = 10 ^ (n + x))
      by (rewrite <- Z.pow_add_r by lia; f_equal; lia).
    assert (Hq : 10 ^ (n + k) * 10 ^ (x - k) <= m * 10 ^ (x - k))
      by (apply Z.mul_le_mono_nonneg_r; [apply Z.pow_nonneg; lia|exact Hm]).
    generalize dependent (10 ^ 309). generalize dependent overflow_bound.
    intros. lia.
  - apply Z.leb_gt in Ee. apply Z.ltb_ge.
    replace (- (x - k)) with (k - x) by lia.
    assert (Hp : 10 ^ (n + x) * 10 ^ (k - x) = 10 ^ (n + k))
      by (rewrite <- Z.pow_add_r by lia; f_equal; lia).
    assert (Hq : overflow_bound * 10 ^ (k - x) <= 10 ^ (n + x) * 10 ^ (k - x))
      by (apply Z.mul_le_mono_nonneg_r; [apply Z.pow_nonneg; lia|lia]).
    generalize dependent (10 ^ 309). generalize dependent overflow_bound.
    intros. lia.
Qed.

Lemma numeral_isFinite_negate :
  forall n, numeral_isFinite (negate_numeral n) = numeral_isFinite n.
Proof. intros [| |m e]; simpl; try rewrite Z.abs_opp; reflexivity. Qed.

Lemma digits_value_ge_pow :
  forall ds acc, 0 <= acc -> Forall (fun d => 0 <= d < 10) ds ->
    acc * 10 ^ Z.of_nat (List.length ds) <= fold_left (fun a d => a * 10 + d) ds acc.
Proof.
  induction ds as [|d ds IH]; intros acc Ha Hds; [simpl; lia|].
  inversion Hds; subst. simpl fold_left.
  specialize (IH (acc * 10 + d) ltac:(lia) H2).
  cbn [List.length]. rewrite Nat2Z.inj_succ, Z.pow_succ_r by lia.
  assert (0 <= 10 ^ Z.of_nat (List.length ds)) by (apply Z.pow_nonneg; lia). nia.
Qed.

(** A numeral whose first digit is not 0 is at least 10 to the number of
    the digits that follow. *)
Lemma leading_digit_value :
  forall d0 ds, 49 <= d0 <= 57 -> Forall (fun c => 48 <= c <= 57) ds ->
    10 ^ Z.of_nat (List.length ds) <= digits_value 10 (map (fun c => c - 48) (d0 :: ds)).
Proof.
  intros d0 ds Hd Hds. unfold digits_value. cbn [map fold_left].
  pose proof (digits_value_ge_pow (map (fun c => c - 48) ds) (0 * 10 + (d0 - 48))
                ltac:(lia)) as G.
  rewrite length_map in G.
  assert (Hall : Forall (fun d => 0 <= d < 10) (map (fun c => c - 48) ds))
    by (apply Forall_map; eapply Forall_impl; [|exact Hds]; simpl; lia).
  specialize (G Hall).
  assert (0 <= 10 ^ Z.of_nat (List.length ds)) by (apply Z.pow_nonneg; lia). nia.
Qed.

Lemma parse_str_numeric_not_zero :
  forall c0 t, c0 <> 48 -> parse_str_numeric (c0 :: t) = parse_str_decimal (c0 :: t).
Proof.
  intros c0 [|c1 t] H; [reflexivity|]. unfold parse_str_numeric.
  replace (c0 =? 48) with false by (symmetry; apply Z.eqb_neq; exact H). reflexivity.
Qed.

(** An ExponentPart with [e] or [E], an optional [+] and decimal digits. *)
Lemma parse_exponent_digits :
  forall mark esign es,
    (mark = 101 \/ mark = 69) -> (esign = [] \/ esign = [43]) ->
    es <> [] -> Forall (fun c => 48 <= c <= 57) es ->
    parse_exponent (mark :: esign ++ es) =
      Some (1 * digits_value 10 (map (fun c => c - 48) es)).
Proof.
  intros mark esign es Hm Hs Hne Hes.
  destruct es as [|e0 es']; [contradiction|].
  inversion Hes as [|? ? He0 Hes'']; subst.
  unfold parse_exponent.
  replace ((mark =? 101) || (mark =? 69)) with true
    by (symmetry; apply orb_true_iff; destruct Hm as [->| ->]; [left|right]; reflexivity).
  assert (Hspan : span_digits 10 (e0 :: es') = (map (fun c => c - 48) (e0 :: es'), [])).
  { pose proof (span_digits_decimal (e0 :: es') [] Hes I) as Hsp.
    rewrite app_nil_r in Hsp. exact Hsp. }
  destruct Hs as [->| ->]; cbn [app].
  - replace (e0 =? 43) with false by (symmetry; apply Z.eqb_neq; lia).
    replace (e0 =? 45) with false by (symmetry; apply Z.eqb_neq; lia).
    rewrite Hspan. reflexivity.
  - cbn [Z.eqb Pos.eqb]. rewrite Hspan. reflexivity.
Qed.

(** StrUnsignedDecimalLiteral [digits [. digits] (e|E) [+] digits]. *)
Lemma parse_unsigned_decimal_exp :
  forall d0 ds fs frac mark esign es,
    48 <= d0 <= 57 -> Forall (fun c => 48 <= c <= 57) ds ->
    ((frac = [] /\ fs = []) \/ frac = 46 :: fs) -> Forall (fun c => 48 <= c <= 57) fs ->
    (mark = 101 \/ mark = 69) -> (esign = [] \/ esign = [43]) ->
    es <> [] -> Forall (fun c => 48 <= c <= 57) es ->
    parse_unsigned_decimal ((d0 :: ds) ++ frac ++ mark :: esign ++ es) =
      NumExact (digits_value 10 (map (fun c => c - 48) ((d0 :: ds) ++ fs)))
               (1 * digits_value 10 (map (fun c => c - 48) es) - Z.of_nat (List.length fs)).
Proof.
  intros d0 ds fs frac mark esign es Hd0 Hds Hfrac Hfs Hm Hs Hne Hes.
  assert (Hmark : digit_value 10 mark = None)
    by (destruct Hm as [->| ->]; reflexivity).
  unfold parse_unsigned_decimal.
  destruct (jsstring_eqb ((d0 :: ds) ++ frac ++ mark :: esign ++ es) (js "Infinity")) eqn:EI.
  { apply jsstring_eqb_eq in EI. cbn [app] in EI. cbv in EI. injection EI as EI. lia. }
  assert (Hall : Forall (fun c => 48 <= c <= 57) (d0 :: ds)) by (constructor; assumption).
  destruct Hfrac as [[-> ->]| ->].
  - cbn [app]. change (d0 :: ds ++ mark :: esign ++ es) with ((d0 :: ds) ++ mark :: esign ++ es).
    rewrite span_digits_decimal by (auto; exact Hmark).
    replace (mark =? 46) with false
      by (symmetry; apply Z.eqb_neq; destruct Hm as [->| ->]; discriminate).
    cbn [map]. rewrite parse_exponent_digits by assumption.
    rewrite !app_nil_r. reflexivity.
  - change ((d0 :: ds) ++ (46 :: fs) ++ mark :: esign ++ es)
      with ((d0 :: ds) ++ 46 :: (fs ++ mark :: esign ++ es)).
    rewrite span_digits_decimal by (auto; reflexivity).
    cbn [Z.eqb Pos.eqb].
    rewrite span_digits_decimal by (auto; exact Hmark).
    rewrite parse_exponent_digits by assumption.
    cbn [map]. rewrite length_map, map_app. reflexivity.
Qed.

(** X14: a decimal numeral with an optional sign, a mantissa whose first
    digit is not 0 (optionally followed by a point and fraction digits),
    then [e] or [E], an optional [+] and an exponent of at least 309,
    padded with any whitespace, is cleared: its value is at least
    10 ^ 309 in magnitude and overflows to an infinity. *)
Theorem formatNumber_clears_overflow :
  forall w1 sign ds frac mark esign es w2,
    Forall (fun c => is_js_whitespace c = true) w1 ->
    Forall (fun c => is_js_whitespace c = true) w2 ->
    (sign = [] \/ sign = [43] \/ sign = [45]) ->
    Forall (fun c => 48 <= c <= 57) ds ->
    (match ds with d0 :: _ => 49 <= d0 | [] => False end) ->
    (frac = [] \/ exists fs, frac = 46 :: fs /\ Forall (fun c => 48 <= c <= 57) fs) ->
    (mark = 101 \/ mark = 69) ->
    (esign = [] \/ esign = [43]) ->
    Forall (fun c => 48 <= c <= 57) es ->
    309 <= digits_value 10 (map (fun c => c - 48) es) ->
    formatNumber (w1 ++ sign ++ ds ++ frac ++ mark :: esign ++ es ++ w2) = [].
Proof.
  intros w1 sign ds frac mark esign es w2 H1 H2 Hsign Hds Hd0 Hfrac Hm Hes_sign Hes Hx.
  destruct ds as [|d0 ds']; [destruct Hd0|].
  assert (Hne : es <> []).
  { intros ->. cbn [digits_value map fold_left] in Hx. lia. }
  assert (Hfr : exists fs, ((frac = [] /\ fs = []) \/ frac = 46 :: fs) /\
                           Forall (fun c => 48 <= c <= 57) fs).
  { destruct Hfrac as [->|[fs [-> Hfs]]].
    - exists []. split; [left; auto|constructor].
    - exists fs. split; [right; reflexivity|exact Hfs]. }
  clear Hfrac. destruct Hfr as [fs [Hfrac Hfs]].
  pose proof (Forall_inv Hds) as Hd0r; pose proof (Forall_inv_tail Hds) as Hds''.
  cbv beta in Hd0r.
  assert (Hdigit_ws : forall c, 48 <= c <= 57 -> is_js_whitespace c = false)
         by (intros c Hc; destruct (is_js_whitespace c) eqn:E; [|reflexivity];
             unfold is_js_whitespace in E; zbool; lia).
  set (body := (d0 :: ds') ++ frac ++ mark :: esign ++ es).
  assert (Hbody : Forall (fun c => is_js_whitespace c = false) (sign ++ body))
         by (apply Forall_app; split;
             [destruct Hsign as [-> | [-> | ->]]; repeat constructor
             |unfold body; repeat (apply Forall_app; split);
              [eapply Forall_impl; [exact Hdigit_ws|exact Hds]
              |destruct Hfrac as [[-> _]| ->]; [constructor|];
               constructor; [reflexivity|]; eapply Forall_impl; [exact Hdigit_ws|exact Hfs]
              |constructor; [destruct Hm as [-> | ->]; reflexivity|];
               apply Forall_app; split;
               [destruct Hes_sign as [-> | ->]; repeat constructor
               |eapply Forall_impl; [exact Hdigit_ws|exact Hes]]]]).
  replace (w1 ++ sign ++ (d0 :: ds') ++ frac ++ mark :: esign ++ es ++ w2)
         with (w1 ++ (sign ++ body) ++ w2)
         by (unfold body; rewrite <- ?app_assoc, <- ?app_comm_cons, <- ?app_assoc;
             reflexivity).
  destruct (formatNumber_cases (w1 ++ (sign ++ body) ++ w2)) as [[_ [_ F]]|H];
         [exfalso|exact H].
  unfold StringToNumber in F; rewrite trim_padded, trim_id in F by assumption.
  assert (Hunsigned := parse_unsigned_decimal_exp d0 ds' fs frac mark esign es
                             Hd0r Hds'' Hfrac Hfs Hm Hes_sign Hne Hes).
  fold body in Hunsigned.
  assert (Hfin : numeral_isFinite (parse_str_numeric (sign ++ body)) =
                      numeral_isFinite (parse_unsigned_decimal body))
         by (destruct Hsign as [-> | [-> | ->]];
             rewrite ?app_nil_l; unfold body; cbn [app];
             rewrite parse_str_numeric_not_zero by lia; unfold parse_str_decimal;
             [replace (d0 =? 43) with false by (symmetry; apply Z.eqb_neq; lia);
              replace (d0 =? 45) with false by (symmetry; apply Z.eqb_neq; lia);
              reflexivity
             |reflexivity
             |apply numeral_isFinite_negate]).
  assert (Htr : truthy (sign ++ body) = true)
         by (unfold body; destruct sign; reflexivity).
  rewrite Htr in F; cbn [negb] in F; rewrite Hfin, Hunsigned in F.
  (* The magnitude is at least 10 ^ 309, above the overflow bound. *)
  set (m := digits_value 10 (map (fun c => c - 48) ((d0 :: ds') ++ fs))) in *.
  set (x := digits_value 10 (map (fun c => c - 48) es)) in *.
  set (k := Z.of_nat (List.length fs)) in *.
  assert (Hm10 : 10 ^ (Z.of_nat (List.length ds') + k) <= m)
         by (unfold m, k; rewrite <- Nat2Z.inj_add, <- length_app; cbn [app];
             apply leading_digit_value; [lia|apply Forall_app; auto]).
  assert (Hk : 0 <= k) by lia.
  unfold numeral_isFinite in F; rewrite Z.mul_1_l in F.
  rewrite (big_magnitude_overflows m (Z.of_nat (List.length ds')) k x) in F by lia.
  discriminate F.
Qed.

(** ** The coupon page *)

Example prodItems_ex :
  CouponPage.prodItems
    (CouponPage.JArr
       [CouponPage.JObj [(js "product", CouponPage.JObj [(js "id", CouponPage.JStr (js "p1"));
                                                          (js "name", CouponPage.JStr (js "Tea"))])];
        CouponPage.JObj [(js "product", CouponPage.JNull)];
        CouponPage.JStr (js "x");
        CouponPage.JObj [(js "product", CouponPage.JObj [(js "id", CouponPage.JStr (js "p2"));
                                                          (js "name", CouponPage.JStr [])])]])
  = [(CouponPage.JStr (js "p1"), CouponPage.JStr (js "Tea"))].
Proof. vm_compute. reflexivity. Qed.

Lemma formatNumber_number_finite :
  forall v, numeral_isFinite (StringToNumber (formatNumber v)) = true.
Proof.
  intros v. destruct (formatNumber_cases v) as [[H [_ F]]|H]; rewrite H; [exact F|].
  reflexivity.
Qed.

Definition numeric_fields_ok (f : CouponPage.CouponForm) : Prop :=
  numeral_isFinite (StringToNumber (CouponPage.discountValue f)) = true /\
  numeral_isFinite (StringToNumber (CouponPage.maxDiscountAmount f)) = true /\
  numeral_isFinite (StringToNumber (CouponPage.minSubtotal f)) = true.

Lemma apply_edit_numeric_ok :
  forall up f e, numeric_fields_ok f -> numeric_fields_ok (CouponPage.apply_edit up f e).
Proof.
  intros up [c n d t v m s sa ea ut upu fo ia ip ep ic ec] e [Hv [Hm Hs]].
  destruct e; cbn; unfold numeric_fields_ok; cbn;
    repeat split; auto; apply formatNumber_number_finite.
Qed.

Lemma form_after_numeric_ok :
  forall up edits f, numeric_fields_ok f ->
    numeric_fields_ok (fold_left (CouponPage.apply_edit up) edits f).
Proof.
  intros up edits. induction edits as [|e edits IH]; intros f Hf; [exact Hf|].
  simpl. apply IH. apply apply_edit_numeric_ok. exact Hf.
Qed.

(** X15: whatever the user types into the form, the posted [discountValue]
    is a finite number, so [JSON.stringify] never turns it into [null]
    (an empty field is posted as 0), and a non-null [maxDiscountAmount] or
    [minSubtotal] is text whose [Number] is finite: the three inputs only
    ever hold text accepted by [formatNumber]. *)
Theorem payload_numbers_finite :
  forall toUpperCase edits,
    let p := CouponPage.build_payload (CouponPage.form_after toUpperCase edits) in
    CouponPage.json_number (CouponPage.p_discountValue p) = Some (CouponPage.p_discountValue p) /\
    (forall s, CouponPage.p_maxDiscountAmount p = Some s ->
               numeral_isFinite (StringToNumber s) = true) /\
    (forall s, CouponPage.p_minSubtotal p = Some s ->
               numeral_isFinite (StringToNumber s) = true).
Proof.
  intros up edits p.
  destruct (form_after_numeric_ok up edits CouponPage.initial_form
              ltac:(repeat split)) as [Hv [Hm Hs]].
  fold (CouponPage.form_after up edits) in Hv, Hm, Hs.
  unfold p, CouponPage.build_payload, CouponPage.json_number; cbn.
  rewrite Hv. split; [reflexivity|]. split.
  - destruct (CouponPage.discountType _); [|discriminate].
    unfold CouponPage.or_null. intros s0.
    destruct (truthy _); [|discriminate]. intros Heq; injection Heq as <-. exact Hm.
  - unfold CouponPage.or_null. intros s0.
    destruct (truthy _); [|discriminate]. intros Heq; injection Heq as <-. exact Hs.
Qed.

(** X16: when either request fails or either body is not JSON, the
    product and category lists keep their previous contents (even when the
    product data itself arrived), the error reads "Failed to load
    products/categories", and loading ends. *)
Theorem fetchPicklists_failure :
  forall st prodRes catRes,
    (prodRes = None \/ catRes = None \/
     (exists pr, prodRes = Some pr /\ CouponPage.res_json pr = None) \/
     (exists cr, catRes = Some cr /\ CouponPage.res_json cr = None)) ->
    CouponPage.fetchPicklists st prodRes catRes =
    CouponPage.mkPageState (CouponPage.products st) (CouponPage.categories st) false
      (CouponPage.submitting st) CouponPage.load_error_message.
Proof.
  intros st prodRes catRes H. unfold CouponPage.fetchPicklists.
  assert (Hnone : match prodRes, catRes with
                  | Some pr, Some cr =>
                      match CouponPage.res_json pr with
                      | None => None
                      | Some prodData =>
                          match CouponPage.res_json cr with
                          | None => None
                          | Some catData => Some (CouponPage.prodItems prodData,
                                                  CouponPage.catItems catData)
                          end
                      end
                  | _, _ => None
                  end = None).
  { destruct H as [->|[->|[[pr [-> Hp]]|[cr [-> Hc]]]]].
    - reflexivity.
    - destruct prodRes; reflexivity.
    - destruct catRes; [rewrite Hp|]; reflexivity.
    - destruct prodRes as [pr|]; [|reflexivity].
      destruct (CouponPage.res_json pr); [rewrite Hc|]; reflexivity. }
  cbv zeta. rewrite Hnone. reflexivity.
Qed.

(** X17: when both bodies are JSON but neither is an array (for instance
    an error object sent with a failure status, whose [ok] flag the code
    never reads), both lists become empty and no error is shown. *)
Theorem fetchPicklists_non_array_silent :
  forall st pr cr prodData catData,
    CouponPage.res_json pr = Some prodData -> CouponPage.res_json cr = Some catData ->
    (forall xs, prodData <> CouponPage.JArr xs) -> (forall xs, catData <> CouponPage.JArr xs) ->
    CouponPage.fetchPicklists st (Some pr) (Some cr) =
    CouponPage.mkPageState [] [] false (CouponPage.submitting st) (CouponPage.error st).
Proof.
  intros st pr cr pd cd Hp Hc Hpa Hca. unfold CouponPage.fetchPicklists.
  cbv zeta. rewrite Hp, Hc.
  replace (CouponPage.prodItems pd) with (@nil (CouponPage.value * CouponPage.value))
    by (destruct pd; try reflexivity; exfalso; eapply Hpa; reflexivity).
  replace (CouponPage.catItems cd) with (@nil (CouponPage.value * CouponPage.value))
    by (destruct cd; try reflexivity; exfalso; eapply Hca; reflexivity).
  reflexivity.
Qed.

(** X18: submitting always ends with [submitting] false, the lists and the
    loading flag untouched and the form's payload posted; the page moves
    to /coupons exactly when the response is ok, and then the error is
    cleared. *)
Theorem onSubmit_outcome :
  forall fmsg nmsg to_s st form resp,
    let '(st', payload, navigated) :=
      CouponPage.onSubmit fmsg nmsg to_s st form resp in
    CouponPage.submitting st' = false /\
    CouponPage.products st' = CouponPage.products st /\
    CouponPage.categories st' = CouponPage.categories st /\
    CouponPage.loading st' = CouponPage.loading st /\
    payload = CouponPage.build_payload form /\
    (navigated = true <-> exists r, resp = Some r /\ CouponPage.res_ok r = true) /\
    (navigated = true -> CouponPage.error st' = []).
Proof.
  intros fmsg nmsg to_s st form resp. unfold CouponPage.onSubmit.
  cbv zeta.
  destruct resp as [r|].
  - destruct (CouponPage.res_ok r) eqn:Ok.
    + cbn. repeat split; try reflexivity. eauto.
    + destruct (CouponPage.get _ _) as [x|]; cbn;
        (repeat split; try reflexivity;
         [discriminate|intros [r' [Hr Hok]]; injection Hr as <-; congruence|discriminate]).
  - cbn. repeat split; try reflexivity; [discriminate|intros [r' [Hr _]]; discriminate|discriminate].
Qed.

(** X19: the error shown after a failed (not ok) response: the server's
    [error] text when the body is an object with a non-empty string
    [error]; "Failed to create coupon" when the body is not JSON or has no
    truthy [error]; and, when the body is the JSON [null], the message of
    the [TypeError] raised by reading [null.error]. *)
Theorem onSubmit_failure_message :
  forall fmsg nmsg to_s st form r,
    CouponPage.res_ok r = false ->
    let msg := CouponPage.error (fst (fst (CouponPage.onSubmit fmsg nmsg to_s st form (Some r)))) in
    (forall fields s, CouponPage.res_json r = Some (CouponPage.JObj fields) ->
       CouponPage.obj_lookup fields (js "error") = CouponPage.JStr s -> s <> [] -> msg = s) /\
    (CouponPage.res_json r = None -> msg = CouponPage.create_error_message) /\
    (forall d, CouponPage.res_json r = Some d -> d <> CouponPage.JNull -> d <> CouponPage.Undefined ->
       CouponPage.value_truthy (CouponPage.opt_get d (js "error")) = false ->
       msg = CouponPage.create_error_message) /\
    (CouponPage.res_json r = Some CouponPage.JNull -> msg = nmsg).
Proof.
  intros fmsg nmsg to_s st form r Hok msg. unfold msg, CouponPage.onSubmit.
  cbv zeta. rewrite Hok. repeat split.
  - intros fields s Hj Hl Hs. rewrite Hj. cbn [CouponPage.get CouponPage.opt_get].
    rewrite Hl. cbn [CouponPage.value_truthy].
    destruct s as [|c s']; [contradiction|]. reflexivity.
  - intros Hj. rewrite Hj. reflexivity.
  - intros d Hj Hn Hu Hf. rewrite Hj.
    replace (CouponPage.get d (js "error")) with (Some (CouponPage.opt_get d (js "error")))
      by (destruct d; try contradiction; reflexivity).
    cbv iota. rewrite Hf. reflexivity.
  - intros Hj. rewrite Hj. reflexivity.
Qed.

(** ** Witnesses of the properties above at concrete inputs *)

Lemma toggle_preserves_valid_witness :
  NoDup (toggle [[97]; [98]] [99]) /\ ~ In [] (toggle [[97]; [98]] [99]).
Proof.
  apply toggle_preserves_valid.
  - repeat constructor; simpl; intuition discriminate.
  - simpl; intuition discriminate.
Defined.

Lemma toggle_membership_witness :
  (In [98] (toggle [[97]; [98]] [98]) <-> ~ In [98] [[97]; [98]]) /\
  (forall y, y <> [98] -> (In y (toggle [[97]; [98]] [98]) <-> In y [[97]; [98]])).
Proof.
  apply toggle_membership.
  - repeat constructor; simpl; intuition discriminate.
  - simpl; intuition discriminate.
  - discriminate.
Defined.

Lemma toggle_twice_witness :
  (~ In [98] [[97]] -> toggle [[97]] [98] = [[97]] ++ [[98]] /\
                       toggle (toggle [[97]] [98]) [98] = [[97]]) /\
  (In [98] [[97]] -> toggle (toggle [[97]] [98]) [98] =
                     filter (fun x => negb (jsstring_eqb x [98])) [[97]] ++ [[98]]).
Proof.
  apply toggle_twice.
  - repeat constructor; simpl; intuition discriminate.
  - simpl; intuition discriminate.
  - discriminate.
Defined.

Lemma filtered_ignores_padding_witness :
  filtered toLowerCase [mkIdName (js "p1") (js "Tea")] ([32] ++ js "TE" ++ [9; 160]) =
  filtered toLowerCase [mkIdName (js "p1") (js "Tea")] (js "TE").
Proof.
  apply filtered_ignores_padding; repeat constructor.
Defined.

Lemma filtered_blank_query_witness :
  filtered toLowerCase [mkIdName (js "p1") (js "Tea")] [32; 9] =
  [mkIdName (js "p1") (js "Tea")].
Proof.
  apply filtered_blank_query; [reflexivity|repeat constructor].
Defined.

Lemma formatNumber_keeps_blank_witness : formatNumber [32; 160] = [32; 160].
Proof.
  apply formatNumber_keeps_blank; [discriminate|repeat constructor].
Defined.

Lemma formatNumber_keeps_decimal_witness :
  formatNumber ([32] ++ [49; 50] ++ [46; 53; 48] ++ [9]) = [32] ++ [49; 50] ++ [46; 53; 48] ++ [9].
Proof.
  apply formatNumber_keeps_decimal.
  - repeat constructor.
  - repeat constructor.
  - discriminate.
  - simpl. lia.
  - repeat constructor; lia.
  - right. exists [53; 48]. split; [reflexivity|]. repeat constructor; lia.
Defined.

Lemma formatNumber_clears_foreign_char_witness : formatNumber [49; 103] = [].
Proof.
  apply (formatNumber_clears_foreign_char [49; 103] 103).
  - simpl. auto.
  - reflexivity.
  - reflexivity.
Defined.

Lemma formatNumber_clears_overflow_witness :
  formatNumber ([32] ++ [] ++ [49] ++ [46; 53] ++ 69 :: [43] ++ [51; 48; 57] ++ []) = [].
Proof.
  exact (formatNumber_clears_overflow [32] [] [49] [46; 53] 69 [43] [51; 48; 57] []
    ltac:(repeat constructor) ltac:(constructor)
    ltac:(left; reflexivity)
    ltac:(repeat constructor; lia)
    ltac:(cbn; lia)
    ltac:(right; exists [53]; split; [reflexivity|repeat constructor; lia])
    ltac:(right; reflexivity)
    ltac:(right; reflexivity)
    ltac:(repeat constructor; lia)
    ltac:(apply Z.leb_le; reflexivity)).
Defined.

Lemma fetchPicklists_failure_witness :
  CouponPage.fetchPicklists CouponPage.initial_state
    (Some (CouponPage.mkFetchResponse true (Some (CouponPage.JArr [])))) None =
  CouponPage.mkPageState [] [] false false CouponPage.load_error_message.
Proof.
  apply fetchPicklists_failure. right. left. reflexivity.
Defined.

Lemma fetchPicklists_non_array_silent_witness :
  CouponPage.fetchPicklists CouponPage.initial_state
    (Some (CouponPage.mkFetchResponse false
             (Some (CouponPage.JObj [(js "error", CouponPage.JStr (js "Unauthorized"))]))))
    (Some (CouponPage.mkFetchResponse false
             (Some (CouponPage.JObj [(js "error", CouponPage.JStr (js "Unauthorized"))])))) =
  CouponPage.mkPageState [] [] false false [].
Proof.
  eapply fetchPicklists_non_array_silent; try reflexivity; intros xs; discriminate.
Defined.

Lemma onSubmit_failure_message_witness :
  CouponPage.error (fst (fst (CouponPage.onSubmit [] [] (fun _ => [])
    CouponPage.initial_state CouponPage.initial_form
    (Some (CouponPage.mkFetchResponse false
             (Some (CouponPage.JObj [(js "error", CouponPage.JStr (js "Code exists"))]))))))) =
  js "Code exists".
Proof.
  destruct (onSubmit_failure_message [] [] (fun _ => []) CouponPage.initial_state
              CouponPage.initial_form
              (CouponPage.mkFetchResponse false
                 (Some (CouponPage.JObj [(js "error", CouponPage.JStr (js "Code exists"))])))
              eq_refl) as [H _].
  apply (H _ (js "Code exists") eq_refl eq_refl). discriminate.
Defined.
